(** * Hybrid movie recommender: ranker and evaluator

    A shallow embedding of the two functions of
    [movie_recommendation.ipynb] that carry the notebook's logic,
    [get_hybrid_recommendations] and [evaluate_recommendations],
    together with the notebook globals they read.

    Conventions.
    - Scores are Python floats in the notebook; they are idealised here
      as rationals ([Q]), so rounding is not modelled.
    - The outputs of the two library-fitted objects (the cosine matrix
      of scikit-learn and the trained Keras network) are fields of the
      [notebook] record: the development holds for every value of them.
    - The order that [np.argsort] gives to equal scores is not fixed by
      numpy; it is a field of the record too, and every ascending
      arrangement is covered.
    - Exceptions are explicit ([outcome]) and printed lines are collected
      in a log, so that "returns [[]] without raising" is a statement
      about values. *)

From Stdlib Require Import ZArith QArith Lia String Ascii.
From stdpp Require Import base decidable option list sorting sets gmap strings.

Local Open Scope string_scope.
Local Open Scope list_scope.
Local Open Scope nat_scope.

(** ** Tables *)

(** A row of [movies.csv]. *)
Record movie_row := Movie {
  movieId : Z;
  title : string;
  genres : string
}.

(** A row of [ratings.csv]. *)
Record rating_row := Rating {
  userId : Z;
  rated_movieId : Z;
  rating : Q;
  timestamp : Z
}.

(** The notebook's global state after the training cell has run.
    [content_sim_matrix i j] is entry (i, j) of the array returned by
    [cosine_similarity(tfidf_matrix)], whose shape is
    [(len(movies_df), len(movies_df))]; [cf_model_predict u m] is the
    flattened output of [cf_model.predict] for user index [u] and movie
    index [m].  [argsort_tie_rank] is the order that [np.argsort] gives
    to equal scores: its default kind is not stable, so numpy leaves
    that order open; [argsort_tie_rank scores i] ranks index [i] among
    the indices whose score equals its own. *)
Record notebook := Notebook {
  movies_df : list movie_row;
  ratings_df : list rating_row;
  content_sim_matrix : nat -> nat -> Q;
  cf_model_predict : Z -> Z -> Q;
  argsort_tie_rank : list Q -> nat -> nat
}.

(** ** Exceptions and printing *)

Inductive exn := IndexError | ValueError | KeyError.

Inductive outcome (A : Type) :=
| Returned (a : A)
| Raised (e : exn).
Arguments Returned {A} a.
Arguments Raised {A} e.

(** The two [print] calls of the ranker:
    [Warning: {movie} not found in the dataset.] and
    [An error occurred: {e}]. *)
Inductive printed :=
| Warning_not_found (movie : string)
| An_error_occurred (e : exn).

(** A computation prints lines and then returns or raises. *)
Definition M (A : Type) : Type := list printed * outcome A.

Definition ret {A} (a : A) : M A := ([], Returned a).
Definition raise {A} (e : exn) : M A := ([], Raised e).
Definition print (p : printed) : M unit := ([p], Returned tt).
Definition bind {A B} (m : M A) (k : A -> M B) : M B :=
  match m with
  | (out, Returned a) => let '(out', r) := k a in (out ++ out', r)
  | (out, Raised e) => (out, Raised e)
  end.

Notation "x <~ m ; k" := (bind m (fun x => k))
  (at level 100, m at next level, right associativity).

(** [try: m except Exception as e: h e]. *)
Definition try_except {A} (m : M A) (h : exn -> M A) : M A :=
  match m with
  | (out, Returned a) => (out, Returned a)
  | (out, Raised e) => let '(out', r) := h e in (out ++ out', r)
  end.

(** ** numpy and scikit-learn helpers *)

(** [np.unique]: the sorted distinct values. *)
Fixpoint insert_unique (x : Z) (l : list Z) : list Z :=
  match l with
  | [] => [x]
  | y :: l' =>
      if (x <? y)%Z then x :: l
      else if (x =? y)%Z then l
      else y :: insert_unique x l'
  end.

Definition np_unique (l : list Z) : list Z := foldr insert_unique [] l.

(** Position of a label in [classes_] ([LabelEncoder.transform] on a
    label seen at fit time). *)
Fixpoint class_index (x : Z) (classes : list Z) : nat :=
  match classes with
  | [] => 0
  | y :: classes' => if (x =? y)%Z then 0 else S (class_index x classes')
  end.

(** [LabelEncoder().fit_transform]. *)
Definition fit_transform (l : list Z) : list Z :=
  map (fun x => Z.of_nat (class_index x (np_unique l))) l.

(** [np.arange(n)]. *)
Definition np_arange (n : nat) : list Z := map Z.of_nat (seq 0 n).

Definition Qsum (l : list Q) : Q := foldr Qplus 0%Q l.

(** [np.mean(rows, axis=0)] for a non-empty list of rows of width [n]. *)
Definition np_mean_axis0 (n : nat) (rows : list (list Q)) : list Q :=
  map (fun j => (Qsum (map (fun r => nth j r 0%Q) rows)
                 / inject_Z (Z.of_nat (length rows)))%Q)
      (seq 0 n).

(** Element-wise [a + b] of two one-dimensional arrays under numpy's
    broadcasting rule: equal lengths, or one side of length one. *)
Definition np_add (a b : list Q) : outcome (list Q) :=
  if length a =? length b then Returned (zip_with Qplus a b)
  else if length a =? 1 then Returned (map (Qplus (hd 0%Q a)) b)
  else if length b =? 1 then Returned (map (fun x => (x + hd 0%Q b)%Q) a)
  else Raised ValueError.

Definition np_scale (c : Q) (a : list Q) : list Q := map (Qmult c) a.

(** [np.argsort(scores)]: indices that sort [scores] ascending.  The
    default kind is not stable: the order of indices with equal scores
    is not fixed by numpy.  It is the parameter [rank]: index [i] comes
    before index [j] when its score is lower, or the scores are equal
    and its rank is not higher.  Every ascending arrangement of the
    indices is the result for some [rank]
    ([np_argsort_any_arrangement]). *)
Definition argsort_before (scores : list Q) (rank : nat -> nat) (i j : nat) : bool :=
  if Qle_bool (nth i scores 0%Q) (nth j scores 0%Q)
  then if Qle_bool (nth j scores 0%Q) (nth i scores 0%Q)
       then rank i <=? rank j
       else true
  else false.

Fixpoint argsort_insert (scores : list Q) (rank : nat -> nat) (i : nat) (l : list nat)
  : list nat :=
  match l with
  | [] => [i]
  | j :: l' =>
      if argsort_before scores rank i j then i :: l
      else j :: argsort_insert scores rank i l'
  end.

Definition np_argsort (rank : list Q -> nat -> nat) (scores : list Q) : list nat :=
  foldr (argsort_insert scores (rank scores)) [] (seq 0 (length scores)).

(** The place of index [i] in an arrangement of indices. *)
Fixpoint place_in (arrangement : list nat) (i : nat) : nat :=
  match arrangement with
  | [] => 0
  | j :: rest => if i =? j then 0 else S (place_in rest i)
  end.

(** Equal scores in increasing index order, as a stable sort leaves them. *)
Definition ties_by_index : list Q -> nat -> nat := fun _ _ => 0.

(** Equal scores in decreasing index order. *)
Definition ties_by_index_reversed : list Q -> nat -> nat :=
  fun scores i => length scores - i.

(** [s.split('|')]. *)
Fixpoint split_pipe (s : string) : list string :=
  match s with
  | EmptyString => [EmptyString]
  | String c rest =>
      if Ascii.eqb c "|"%char then EmptyString :: split_pipe rest
      else match split_pipe rest with
           | [] => [String c EmptyString]
           | w :: ws => String c w :: ws
           end
  end.

(** ** The notebook's functions *)

Section Notebook.

Context (nb : notebook).

(** [movies_df[movies_df['title'] == movie].index]: the row labels of
    the default [RangeIndex] whose title is [movie]. *)
Fixpoint rows_titled (movie : string) (df : list movie_row) (i : nat) : list nat :=
  match df with
  | [] => []
  | m :: df' =>
      if String.eqb (title m) movie then i :: rows_titled movie df' (S i)
      else rows_titled movie df' (S i)
  end.

Definition title_index (movie : string) : list nat :=
  rows_titled movie (movies_df nb) 0.

(** [X_users], [X_movies] and [num_movies] of the training cell. *)
Definition X_users : list Z := fit_transform (map userId (ratings_df nb)).
Definition X_movies : list Z := fit_transform (map rated_movieId (ratings_df nb)).
Definition num_movies : nat := length (np_unique X_movies).

(** [movie_encoder.classes_]. *)
Definition movie_classes : list Z := np_unique (map rated_movieId (ratings_df nb)).

(** The first loop of the ranker: the row of every seed title, or the
    first title that has no row (the early [return []]). *)
Fixpoint find_input_indices (input_movies : list string) (input_movie_indices : list nat)
  : list nat + string :=
  match input_movies with
  | [] => inl input_movie_indices
  | movie :: rest =>
      match title_index movie with
      | idx0 :: _ => find_input_indices rest (input_movie_indices ++ [idx0])
      | [] => inr movie
      end
  end.

(** [content_sim_matrix[idx]]. *)
Definition content_row (idx : nat) : list Q :=
  map (content_sim_matrix nb idx) (seq 0 (length (movies_df nb))).

(** From [content_scores = np.mean(...)] to [hybrid_scores].  With no
    seed, [np.mean] of the empty list is a scalar, and slicing it raises
    [IndexError]. *)
Definition hybrid_scores (input_movie_indices : list nat) : outcome (list Q) :=
  let content_scores :=
    np_mean_axis0 (length (movies_df nb)) (map content_row input_movie_indices) in
  match X_users !! 0 with
  | None => Raised IndexError
  | Some sample_user_id =>
      let all_movie_ids := np_arange num_movies in
      match input_movie_indices with
      | [] => Raised IndexError
      | _ :: _ =>
          let content_scores := take (length all_movie_ids) content_scores in
          let cf_ratings := map (cf_model_predict nb sample_user_id) all_movie_ids in
          np_add (np_scale (1 # 2) content_scores) (np_scale (1 # 2) cf_ratings)
      end
  end.

(** [np.argsort(hybrid_scores)[::-1]]. *)
Definition top_indices (scores : list Q) : list nat :=
  reverse (np_argsort (argsort_tie_rank nb) scores).

(** The second loop: [movies_df.loc[idx, 'title']] raises [KeyError]
    for a label outside the table; the loop has no [break]. *)
Fixpoint filter_loop (input_movies : list string) (top_n : Z)
    (indices : list nat) (recommendations : list string) : outcome (list string) :=
  match indices with
  | [] => Returned recommendations
  | idx :: rest =>
      match movies_df nb !! idx with
      | None => Raised KeyError
      | Some m =>
          let rec_movie_title := title m in
          if bool_decide (rec_movie_title ∉ input_movies)
             && (Z.of_nat (length recommendations) <? top_n)%Z
          then filter_loop input_movies top_n rest (recommendations ++ [rec_movie_title])
          else filter_loop input_movies top_n rest recommendations
      end
  end.

(** The rows behind the titles that [filter_loop] collects.  The source
    keeps only the titles; this is the same loop recording [idx]. *)
Fixpoint selected_rows (input_movies : list string) (top_n : Z)
    (indices : list nat) (rows : list nat) : outcome (list nat) :=
  match indices with
  | [] => Returned rows
  | idx :: rest =>
      match movies_df nb !! idx with
      | None => Raised KeyError
      | Some m =>
          if bool_decide (title m ∉ input_movies)
             && (Z.of_nat (length rows) <? top_n)%Z
          then selected_rows input_movies top_n rest (rows ++ [idx])
          else selected_rows input_movies top_n rest rows
      end
  end.

(** The body of the [try] block. *)
Definition ranker_body (input_movies : list string) (top_n : Z) : M (list string) :=
  match find_input_indices input_movies [] with
  | inr movie => _ <~ print (Warning_not_found movie); ret []
  | inl input_movie_indices =>
      match hybrid_scores input_movie_indices with
      | Raised e => raise e
      | Returned scores =>
          match filter_loop input_movies top_n (top_indices scores) [] with
          | Raised e => raise e
          | Returned recommendations => ret recommendations
          end
      end
  end.

Definition get_hybrid_recommendations (input_movies : list string) (top_n : Z)
  : M (list string) :=
  try_except (ranker_body input_movies top_n)
             (fun e => _ <~ print (An_error_occurred e); ret []).

(** The evaluator's result dictionary. *)
Record metrics := Metrics {
  recommendations : list string;
  genre_match_rate : Q;
  total_recommendations : nat
}.

(** [movies_df[movies_df['title'] == t]['genres'].values]. *)
Definition genres_values (t : string) : list string :=
  map genres (List.filter (fun m => String.eqb (title m) t) (movies_df nb)).

(** The seed loop: [values[0]] raises [IndexError] on an empty array. *)
Fixpoint seed_genres_loop (test_movies : list string) (input_genres : gset string)
  : outcome (gset string) :=
  match test_movies with
  | [] => Returned input_genres
  | movie :: rest =>
      match genres_values movie with
      | [] => Raised IndexError
      | genre :: _ =>
          seed_genres_loop rest (input_genres ∪ list_to_set (split_pipe genre))
      end
  end.

(** [sum(any(genre in input_genres for genre in ...) for rec in ...)]. *)
Fixpoint count_genre_matches (input_genres : gset string) (recs : list string)
  : outcome nat :=
  match recs with
  | [] => Returned 0
  | rec :: rest =>
      match genres_values rec with
      | [] => Raised IndexError
      | g :: _ =>
          match count_genre_matches input_genres rest with
          | Raised e => Raised e
          | Returned k =>
              Returned
                ((if existsb (fun genre => bool_decide (genre ∈ input_genres))
                             (split_pipe g) then 1 else 0) + k)
          end
      end
  end.

Definition match_rate (genre_matches : nat) (recs : list string) : Q :=
  match recs with
  | [] => 0%Q
  | _ :: _ =>
      (inject_Z (Z.of_nat genre_matches) / inject_Z (Z.of_nat (length recs))
       * 100)%Q
  end.

(** Everything after the call of the ranker. *)
Definition evaluate_against (test_movies recs : list string) : outcome metrics :=
  match seed_genres_loop test_movies ∅ with
  | Raised e => Raised e
  | Returned input_genres =>
      match count_genre_matches input_genres recs with
      | Raised e => Raised e
      | Returned genre_matches =>
          Returned (Metrics recs (match_rate genre_matches recs) (length recs))
      end
  end.

Definition evaluate_recommendations (test_movies : list string) (top_n : Z)
  : M metrics :=
  recs <~ get_hybrid_recommendations test_movies top_n;
  match evaluate_against test_movies recs with
  | Raised e => raise e
  | Returned m => ret m
  end.

End Notebook.

(** ** Vocabulary of the properties *)

Section Vocabulary.

Context (nb : notebook).

(** A title occurs in the movie table. *)
Definition in_table (t : string) : Prop := t ∈ map title (movies_df nb).

#[global] Instance in_table_dec t : Decision (in_table t).
Proof. unfold in_table. apply _. Defined.

(** [rows] and [titles] run in parallel: each title is the title of the
    row at the same position. *)
Definition titles_of (rows : list nat) (titles : list string) : Prop :=
  Forall2 (fun i t => exists m, movies_df nb !! i = Some m /\ title m = t) rows titles.

(** The content score of row [j]: the mean over the seed rows [idxs] of
    the content-similarity entries of column [j]. *)
Definition content_score (idxs : list nat) (j : nat) : Q :=
  (Qsum (map (fun i => content_sim_matrix nb i j) idxs)
   / inject_Z (Z.of_nat (length idxs)))%Q.

(** The genre tags the evaluator finds for a title: it looks the title
    up and takes the first row that carries it. *)
Definition genre_tags (t : string) : list string :=
  match genres_values nb t with
  | [] => []
  | g :: _ => split_pipe g
  end.

(** The union of the tags the evaluator finds for the seed titles. *)
Definition seed_genre_union (seeds : list string) : gset string :=
  ⋃ (map (fun t => list_to_set (genre_tags t)) seeds).

(** The tags the evaluator finds for a title meet a set of tags. *)
Definition shares_genre (tags : gset string) (rec : string) : Prop :=
  Exists (fun g => g ∈ tags) (genre_tags rec).

#[global] Instance shares_genre_dec tags rec : Decision (shares_genre tags rec).
Proof. unfold shares_genre. apply _. Defined.

(** The genre tags of the movie at table row [i]. *)
Definition row_tags (i : nat) : list string :=
  match movies_df nb !! i with
  | Some m => split_pipe (genres m)
  | None => []
  end.


(** The movie at row [i] shares at least one genre tag with a set. *)
Definition movie_shares_genre (tags : gset string) (i : nat) : Prop :=
  Exists (fun g => g ∈ tags) (row_tags i).

#[global] Instance movie_shares_genre_dec tags i : Decision (movie_shares_genre tags i).
Proof. unfold movie_shares_genre. apply _. Defined.


End Vocabulary.

Section OrderVocabulary.

Context (scores : list Q).

Definition score_of (i : nat) : Q := nth i scores 0%Q.

(** Row [i] does not score below row [j]. *)
Definition scores_at_least (i j : nat) : Prop := (score_of j <= score_of i)%Q.

(** Index [i] is sorted before index [j] under a tie rank: a lower
    score, or an equal score and a rank that is not higher. *)
Definition sorted_before (rank : nat -> nat) (i j : nat) : Prop :=
  (score_of i < score_of j)%Q \/ ((score_of i == score_of j)%Q /\ rank i <= rank j).

(** Rows with equal scores appear in table order. *)
Definition ties_in_table_order (rows : list nat) : Prop :=
  forall a b i j,
    rows !! a = Some i -> rows !! b = Some j -> a < b ->
    (score_of i == score_of j)%Q -> i < j.

End OrderVocabulary.

(** ** Small notebooks *)

Definition toy_movies : list movie_row :=
  [ Movie 1 "Toy Story (1995)" "Adventure|Animation|Children|Comedy|Fantasy";
    Movie 2 "Jumanji (1995)" "Adventure|Children|Fantasy";
    Movie 3 "Grumpier Old Men (1995)" "Comedy|Romance";
    Movie 4 "Heat (1995)" "Action|Crime|Thriller" ].

(** Movie 2 has no rating, as some rows of the real table have none. *)
Definition toy_ratings : list rating_row :=
  [ Rating 1 1 4 964982703;
    Rating 1 3 4 964981247;
    Rating 2 4 5 964982224 ].

Definition toy_sim (i j : nat) : Q :=
  if i =? j then 1%Q else (1 # 4)%Q.

Definition toy_predict (u m : Z) : Q :=
  match m with
  | 0%Z => 4
  | 1%Z => 2
  | 2%Z => 5
  | _ => 0
  end%Q.

Definition toy : notebook :=
  Notebook toy_movies toy_ratings toy_sim toy_predict ties_by_index.

(** Every movie of the first three rows is rated and the model predicts
    the same rating for all of them, so rows 1 and 2 tie; equal scores
    are sorted in index order. *)
Definition tied_ratings : list rating_row :=
  [ Rating 1 1 4 964982703;
    Rating 1 2 3 964981247;
    Rating 1 3 3 964982224 ].

Definition tied : notebook :=
  Notebook toy_movies tied_ratings toy_sim (fun _ _ => 3%Q) ties_by_index.

(** The same notebook with equal scores sorted in decreasing index order. *)
Definition tied_reversed : notebook :=
  Notebook toy_movies tied_ratings toy_sim (fun _ _ => 3%Q) ties_by_index_reversed.

(** Two rows carry the same title, as a few rows of the real table do. *)
Definition twin_movies : list movie_row :=
  [ Movie 1 "Toy Story (1995)" "Adventure|Animation|Children|Comedy|Fantasy";
    Movie 838 "Emma (1996)" "Comedy|Drama|Romance";
    Movie 26958 "Emma (1996)" "Romance" ].

Definition twin_ratings : list rating_row :=
  [ Rating 1 1 4 964982703;
    Rating 1 838 3 964981247;
    Rating 1 26958 3 964982224 ].

Definition twins : notebook :=
  Notebook twin_movies twin_ratings toy_sim (fun _ _ => 3%Q) ties_by_index.

(** The ratings mention three movies, the table has two rows. *)
Definition short_table : notebook :=
  Notebook (take 2 toy_movies) toy_ratings toy_sim toy_predict ties_by_index.

(** The ratings mention three movies, the table has one row. *)
Definition one_row : notebook :=
  Notebook (take 1 toy_movies) toy_ratings toy_sim toy_predict ties_by_index.

(** ** Other cells of the notebook *)

Section OtherCells.

Context (nb : notebook).

(** [num_users] of the training cell. *)
Definition num_users : nat := length (np_unique (X_users nb)).

(** [user_encoder.classes_]. *)
Definition user_classes : list Z := np_unique (map userId (ratings_df nb)).

(** The (row label, column label) pair of every rating row in
    [ratings_df.pivot(index='user_id_encoded', columns='movie_id_encoded',
    values='rating')]. *)
Definition pivot_keys : list (Z * Z) := zip (X_users nb) (X_movies nb).

(** The cell of the pivoted table at row label [u] and column label
    [m]: the rating of the row with that pair of labels, and 0 where
    [fillna(0)] fills a missing value. *)
Definition pivot_cell (u m : Z) : Q :=
  match filter (fun kr => fst kr = (u, m))
               (zip pivot_keys (map rating (ratings_df nb))) with
  | kr :: _ => snd kr
  | [] => 0%Q
  end.

(** [user_movie_matrix]: [pivot] raises [ValueError] when two rating
    rows have the same pair of labels; the row and column labels of the
    result are the sorted distinct labels. *)
Definition user_movie_matrix : outcome (list (list Q)) :=
  if bool_decide (NoDup pivot_keys)
  then Returned (map (fun u => map (pivot_cell u) (np_unique (X_movies nb)))
                     (np_unique (X_users nb)))
  else Raised ValueError.

(** The titles of the rows [indices], when all of them are rows of the
    table. *)
Fixpoint titles_at (indices : list nat) : option (list string) :=
  match indices with
  | [] => Some []
  | idx :: rest =>
      match movies_df nb !! idx, titles_at rest with
      | Some m, Some ts => Some (title m :: ts)
      | _, _ => None
      end
  end.

(** Row [i] is the first row of the table that carries the title [t]. *)
Definition first_row_of (t : string) (i : nat) : Prop :=
  (exists m, movies_df nb !! i = Some m /\ title m = t)
  /\ (forall j m', j < i -> movies_df nb !! j = Some m' -> title m' <> t).

End OtherCells.

(** ['|'.join(l)]. *)
Fixpoint join_pipe (l : list string) : string :=
  match l with
  | [] => ""
  | w :: rest =>
      match rest with
      | [] => w
      | _ :: _ => (w ++ "|" ++ join_pipe rest)%string
      end
  end.

(** The number of ['|'] characters of a string. *)
Fixpoint count_pipes (s : string) : nat :=
  match s with
  | EmptyString => 0
  | String c rest => (if Ascii.eqb c "|"%char then 1 else 0) + count_pipes rest
  end.

(** A string holds no ['|']. *)
Definition pipe_free (s : string) : Prop := count_pipes s = 0.

(** One user rated the same movie twice. *)
Definition repeated_ratings : list rating_row :=
  [ Rating 1 1 4 964982703;
    Rating 1 1 5 964982999 ].

Definition repeated : notebook :=
  Notebook toy_movies repeated_ratings toy_sim toy_predict ties_by_index.

(** * Lemmas *)

(** ** Looking titles up *)

Section Lookup.

Context (nb : notebook).

Lemma rows_titled_nil movie df i :
  rows_titled movie df i = [] <-> movie ∉ map title df.
Proof.
  revert i. induction df as [|m df IH]; intros i; simpl.
  - split; [intros _; apply not_elem_of_nil | reflexivity].
  - rewrite not_elem_of_cons. destruct (String.eqb_spec (title m) movie) as [E|E].
    + split; [discriminate | intros [H _]; congruence].
    + rewrite IH. split; [intros H; split; [congruence | exact H] | intros [_ H]; exact H].
Qed.

Lemma rows_titled_lookup movie df i k :
  k ∈ rows_titled movie df i ->
  exists m, df !! (k - i) = Some m /\ title m = movie /\ i <= k.
Proof.
  revert i. induction df as [|m df IH]; intros i; simpl.
  - intros H. apply elem_of_nil in H. contradiction.
  - destruct (String.eqb_spec (title m) movie) as [E|E].
    + rewrite elem_of_cons. intros [->|H].
      * exists m. replace (i - i) with 0 by lia. auto.
      * destruct (IH _ H) as (m' & Hm & Ht & Hle). exists m'.
        replace (k - i) with (S (k - S i)) by lia. simpl. split; [exact Hm | split; [exact Ht | lia]].
    + intros H. destruct (IH _ H) as (m' & Hm & Ht & Hle). exists m'.
      replace (k - i) with (S (k - S i)) by lia. simpl. split; [exact Hm | split; [exact Ht | lia]].
Qed.

Lemma title_index_nil movie : title_index nb movie = [] <-> ~ in_table nb movie.
Proof. apply rows_titled_nil. Qed.

Lemma genres_values_nil t : genres_values nb t = [] <-> ~ in_table nb t.
Proof.
  unfold genres_values, in_table. induction (movies_df nb) as [|m df IH]; simpl.
  - split; [intros _; apply not_elem_of_nil | reflexivity].
  - rewrite not_elem_of_cons. destruct (String.eqb_spec (title m) t) as [E|E]; simpl.
    + split; [discriminate | intros [H _]; congruence].
    + rewrite IH. split; [intros H; split; [congruence | exact H] | intros [_ H]; exact H].
Qed.

(** The first loop stops at a title that is not in the table. *)
Lemma find_input_indices_absent input_movies acc :
  (exists t, t ∈ input_movies /\ ~ in_table nb t) ->
  exists movie, find_input_indices nb input_movies acc = inr movie
                /\ movie ∈ input_movies /\ ~ in_table nb movie.
Proof.
  revert acc. induction input_movies as [|movie rest IH]; intros acc (t & Hin & Habs).
  - apply elem_of_nil in Hin. contradiction.
  - simpl. destruct (title_index nb movie) as [|idx0 tl] eqn:E.
    + exists movie. split; [reflexivity|]. split; [apply list_elem_of_here|].
      apply title_index_nil. exact E.
    + apply elem_of_cons in Hin. destruct Hin as [->|Hin].
      * apply title_index_nil in Habs. congruence.
      * destruct (IH (acc ++ [idx0])) as (mv & Hf & Hmv & Hno); [eauto|].
        exists mv. split; [exact Hf|]. split; [apply list_elem_of_further; exact Hmv | exact Hno].
Qed.

(** The first loop succeeds when every title is in the table. *)
Lemma find_input_indices_present input_movies acc :
  Forall (in_table nb) input_movies ->
  exists idxs, find_input_indices nb input_movies acc = inl (acc ++ idxs)
               /\ length idxs = length input_movies.
Proof.
  revert acc. induction input_movies as [|movie rest IH]; intros acc HF.
  - exists []. simpl. rewrite app_nil_r. auto.
  - apply Forall_cons in HF. destruct HF as [Hm Hrest]. simpl.
    destruct (title_index nb movie) as [|idx0 tl] eqn:E.
    + apply title_index_nil in E. contradiction.
    + destruct (IH (acc ++ [idx0]) Hrest) as (idxs & Hf & Hlen).
      exists (idx0 :: idxs). rewrite Hf, <- app_assoc. simpl. auto.
Qed.

Lemma find_input_indices_inl input_movies acc idxs :
  find_input_indices nb input_movies acc = inl idxs -> Forall (in_table nb) input_movies.
Proof.
  revert acc. induction input_movies as [|movie rest IH]; intros acc H.
  - constructor.
  - simpl in H. destruct (title_index nb movie) as [|idx0 tl] eqn:E; [discriminate|].
    constructor; [|eapply IH; exact H].
    destruct (decide (movie ∈ map title (movies_df nb))) as [Hyes|Hno]; [exact Hyes|].
    apply title_index_nil in Hno. congruence.
Qed.

End Lookup.

(** ** The candidate order *)

Section Order.

Context (nb : notebook) (scores : list Q).

Lemma argsort_insert_perm rank i l : argsort_insert scores rank i l ≡ₚ i :: l.
Proof.
  induction l as [|j l IH]; simpl; [reflexivity|].
  destruct (argsort_before _ _ _ _); [reflexivity|].
  rewrite IH. apply perm_swap.
Qed.

Lemma argsort_before_true rank i j :
  argsort_before scores rank i j = true ->
  (score_of scores i <= score_of scores j)%Q.
Proof.
  unfold argsort_before, score_of.
  destruct (Qle_bool (nth i scores 0%Q) (nth j scores 0%Q)) eqn:E; [|discriminate].
  intros _. apply Qle_bool_iff, E.
Qed.

Lemma argsort_before_false rank i j :
  argsort_before scores rank i j = false ->
  (score_of scores j <= score_of scores i)%Q.
Proof.
  unfold argsort_before, score_of.
  destruct (Qle_bool (nth i scores 0%Q) (nth j scores 0%Q)) eqn:E.
  - destruct (Qle_bool (nth j scores 0%Q) (nth i scores 0%Q)) eqn:E'; [|discriminate].
    intros _. apply Qle_bool_iff, E'.
  - intros _. apply Qlt_le_weak, Qnot_le_lt. intros Hle.
    apply Qle_bool_iff in Hle. congruence.
Qed.

Lemma argsort_insert_sorted rank i l :
  StronglySorted (flip (scores_at_least scores)) l ->
  StronglySorted (flip (scores_at_least scores)) (argsort_insert scores rank i l).
Proof.
  induction l as [|j l IH]; intros Hs; simpl.
  - repeat constructor.
  - apply StronglySorted_cons in Hs. destruct Hs as [Hj Hs].
    destruct (argsort_before scores rank i j) eqn:E.
    + apply argsort_before_true in E. apply StronglySorted_cons. split.
      * apply Forall_cons. split; [exact E|].
        rewrite Forall_forall in Hj |- *. intros k Hk.
        unfold flip, scores_at_least in *.
        eapply Qle_trans; [exact E | apply Hj, Hk].
      * apply StronglySorted_cons. split; assumption.
    + apply argsort_before_false in E.
      apply StronglySorted_cons. split; [|apply IH; assumption].
      rewrite (argsort_insert_perm rank i l). apply Forall_cons. split; [exact E|exact Hj].
Qed.

Lemma argsort_fold_sorted rank k n :
  let l := foldr (argsort_insert scores rank) [] (seq k n) in
  l ≡ₚ seq k n /\ StronglySorted (flip (scores_at_least scores)) l.
Proof.
  revert k. induction n as [|n IH]; intros k; simpl.
  - split; [reflexivity | constructor].
  - destruct (IH (S k)) as [Hp Hs]. split.
    + rewrite argsort_insert_perm. constructor. exact Hp.
    + apply argsort_insert_sorted. exact Hs.
Qed.

Lemma np_argsort_perm rank : np_argsort rank scores ≡ₚ seq 0 (length scores).
Proof. apply (argsort_fold_sorted (rank scores) 0 (length scores)). Qed.

Lemma StronglySorted_reverse {A} (R : relation A) (l : list A) :
  StronglySorted (flip R) l -> StronglySorted R (reverse l).
Proof.
  induction l as [|a l IH]; intros H; [constructor|].
  apply StronglySorted_cons in H. destruct H as [Ha Hl].
  rewrite reverse_cons. apply StronglySorted_app. split; [|split].
  - intros x1 x2 H1 H2. apply list_elem_of_singleton in H2. subst x2.
    rewrite elem_of_reverse in H1. rewrite Forall_forall in Ha. apply Ha, H1.
  - apply IH, Hl.
  - repeat constructor.
Qed.

Lemma top_indices_perm : top_indices nb scores ≡ₚ seq 0 (length scores).
Proof. unfold top_indices. rewrite reverse_Permutation. apply np_argsort_perm. Qed.

Lemma top_indices_sorted :
  StronglySorted (scores_at_least scores) (top_indices nb scores).
Proof.
  apply StronglySorted_reverse.
  apply (argsort_fold_sorted (argsort_tie_rank nb scores) 0 (length scores)).
Qed.

Lemma top_indices_bound : Forall (fun i => i < length scores) (top_indices nb scores).
Proof.
  rewrite top_indices_perm. apply Forall_seq. intros j Hj. lia.
Qed.

End Order.

(** ** Every ascending arrangement is an outcome of the index sort *)

Lemma StronglySorted_lookup {A} (R : relation A) (l : list A) a b x y :
  StronglySorted R l -> a < b -> l !! a = Some x -> l !! b = Some y -> R x y.
Proof.
  revert a b. induction l as [|z l IH]; intros a b Hs Hab Ha Hb; [discriminate|].
  apply StronglySorted_cons in Hs. destruct Hs as [Hz Hs].
  destruct b as [|b]; [lia|]. simpl in Hb. destruct a as [|a]; simpl in Ha.
  - inversion Ha; subst. rewrite Forall_forall in Hz.
    apply Hz. eapply list_elem_of_lookup_2, Hb.
  - apply (IH a b); [assumption | lia | assumption..].
Qed.

Lemma StronglySorted_from_lookup {A} (R : relation A) (l : list A) :
  (forall a b x y, a < b -> l !! a = Some x -> l !! b = Some y -> R x y) ->
  StronglySorted R l.
Proof.
  induction l as [|z l IH]; intros H; [constructor|].
  apply StronglySorted_cons. split.
  - apply Forall_forall. intros y Hy. apply list_elem_of_lookup_1 in Hy.
    destruct Hy as [b Hb]. apply (H 0 (S b)); [lia | reflexivity | exact Hb].
  - apply IH. intros a b x y Hab Ha Hb. apply (H (S a) (S b)); [lia | exact Ha | exact Hb].
Qed.

Lemma place_in_elem l x : x ∈ l -> l !! place_in l x = Some x.
Proof.
  induction l as [|y l IH]; intros Hx; simpl.
  - apply elem_of_nil in Hx. contradiction.
  - destruct (Nat.eqb_spec x y) as [->|Hne]; [reflexivity|].
    apply elem_of_cons in Hx. destruct Hx as [->|Hx]; [congruence|].
    simpl. apply IH, Hx.
Qed.

Lemma place_in_lookup l a x : NoDup l -> l !! a = Some x -> place_in l x = a.
Proof.
  intros Hnd Ha.
  pose proof (place_in_elem l x (list_elem_of_lookup_2 _ _ _ Ha)) as Hp.
  apply (NoDup_lookup _ _ _ _ Hnd Hp Ha).
Qed.

Section Arrangements.

Context (scores : list Q) (rank : nat -> nat).

Lemma argsort_before_rank_true i j :
  argsort_before scores rank i j = true -> sorted_before scores rank i j.
Proof.
  unfold argsort_before, sorted_before, score_of.
  destruct (Qle_bool (nth i scores 0%Q) (nth j scores 0%Q)) eqn:E; [|discriminate].
  apply Qle_bool_iff in E.
  destruct (Qle_bool (nth j scores 0%Q) (nth i scores 0%Q)) eqn:E'.
  - apply Qle_bool_iff in E'. intros Hr. apply Nat.leb_le in Hr.
    right. split; [apply Qle_antisym; assumption | exact Hr].
  - intros _. left. apply Qnot_le_lt. intros Hle.
    apply Qle_bool_iff in Hle. congruence.
Qed.

Lemma argsort_before_rank_false i j :
  argsort_before scores rank i j = false -> sorted_before scores rank j i.
Proof.
  unfold argsort_before, sorted_before, score_of.
  destruct (Qle_bool (nth i scores 0%Q) (nth j scores 0%Q)) eqn:E.
  - apply Qle_bool_iff in E.
    destruct (Qle_bool (nth j scores 0%Q) (nth i scores 0%Q)) eqn:E'; [|discriminate].
    apply Qle_bool_iff in E'. intros Hr. apply Nat.leb_gt in Hr.
    right. split; [apply Qle_antisym; assumption | lia].
  - intros _. left. apply Qnot_le_lt. intros Hle.
    apply Qle_bool_iff in Hle. congruence.
Qed.

Lemma sorted_before_trans i j k :
  sorted_before scores rank i j -> sorted_before scores rank j k ->
  sorted_before scores rank i k.
Proof.
  unfold sorted_before. intros [Hij|[Hij Rij]] [Hjk|[Hjk Rjk]].
  - left. eapply Qlt_trans; eassumption.
  - left. rewrite <- Hjk. exact Hij.
  - left. rewrite Hij. exact Hjk.
  - right. split; [rewrite Hij; exact Hjk | lia].
Qed.

Lemma argsort_insert_rank_sorted i l :
  StronglySorted (sorted_before scores rank) l ->
  StronglySorted (sorted_before scores rank) (argsort_insert scores rank i l).
Proof.
  induction l as [|j l IH]; intros Hs; simpl.
  - repeat constructor.
  - apply StronglySorted_cons in Hs. destruct Hs as [Hj Hs].
    destruct (argsort_before scores rank i j) eqn:E.
    + apply argsort_before_rank_true in E. apply StronglySorted_cons. split.
      * apply Forall_cons. split; [exact E|].
        rewrite Forall_forall in Hj |- *. intros k Hk.
        eapply sorted_before_trans; [exact E | apply Hj, Hk].
      * apply StronglySorted_cons. split; assumption.
    + apply argsort_before_rank_false in E.
      apply StronglySorted_cons. split; [|apply IH; assumption].
      rewrite (argsort_insert_perm scores rank i l).
      apply Forall_cons. split; [exact E|exact Hj].
Qed.

Lemma argsort_fold_rank_sorted k n :
  StronglySorted (sorted_before scores rank)
                 (foldr (argsort_insert scores rank) [] (seq k n)).
Proof.
  revert k. induction n as [|n IH]; intros k; simpl; [constructor|].
  apply argsort_insert_rank_sorted, IH.
Qed.

End Arrangements.

(** Whatever ascending arrangement of the indices the index sort of
    numpy returns, the model returns it when the tie rank of an index is
    its place in that arrangement. *)
Lemma np_argsort_any_arrangement scores arrangement :
  arrangement ≡ₚ seq 0 (length scores) ->
  StronglySorted (flip (scores_at_least scores)) arrangement ->
  np_argsort (fun _ => place_in arrangement) scores = arrangement.
Proof.
  intros Hp Hs.
  assert (Hnd : NoDup arrangement) by (rewrite Hp; apply NoDup_seq).
  apply (StronglySorted_unique_strong (sorted_before scores (place_in arrangement))).
  - intros x1 x2 Hx1 Hx2 H12 H21.
    rewrite (np_argsort_perm scores (fun _ => place_in arrangement)), <- Hp in Hx1.
    assert (Hplace : place_in arrangement x1 = place_in arrangement x2).
    { destruct H12 as [H12|[E12 R12]]; destruct H21 as [H21|[E21 R21]].
      - exfalso. apply (Qlt_irrefl (score_of scores x1)). eapply Qlt_trans; eassumption.
      - exfalso. rewrite E21 in H12. apply (Qlt_irrefl _ H12).
      - exfalso. rewrite E12 in H21. apply (Qlt_irrefl _ H21).
      - lia. }
    pose proof (place_in_elem _ _ Hx1) as H1. pose proof (place_in_elem _ _ Hx2) as H2.
    rewrite Hplace in H1. congruence.
  - apply argsort_fold_rank_sorted.
  - apply StronglySorted_from_lookup. intros a b x y Hab Ha Hb.
    pose proof (StronglySorted_lookup _ _ _ _ _ _ Hs Hab Ha Hb) as Hle.
    unfold flip, scores_at_least in Hle. apply Qle_lteq in Hle.
    destruct Hle as [Hlt|Heq]; [left; exact Hlt|].
    right. split; [exact Heq|].
    rewrite (place_in_lookup _ _ _ Hnd Ha), (place_in_lookup _ _ _ Hnd Hb). lia.
  - rewrite np_argsort_perm, Hp. reflexivity.
Qed.

Lemma StronglySorted_sublist {A} (R : relation A) (l1 l2 : list A) :
  l1 `sublist_of` l2 -> StronglySorted R l2 -> StronglySorted R l1.
Proof.
  induction 1 as [|x l1 l2 Hsub IH|x l1 l2 Hsub IH]; intros Hs.
  - constructor.
  - apply StronglySorted_cons in Hs. destruct Hs as [Hx Hs].
    apply StronglySorted_cons. split; [|apply IH, Hs].
    rewrite Forall_forall in Hx |- *. intros y Hy. apply Hx.
    eapply elem_of_sublist; eassumption.
  - apply StronglySorted_cons in Hs. apply IH, Hs.
Qed.

(** ** The loops of the ranker *)

Section Ranker.

Context (nb : notebook).

Lemma filter_loop_invariant input_movies top_n indices recs out :
  filter_loop nb input_movies top_n indices recs = Returned out ->
  Forall (fun t => t ∉ input_movies) recs ->
  (Z.of_nat (length recs) <= Z.max 0 top_n)%Z ->
  Forall (fun t => t ∉ input_movies) out
  /\ (Z.of_nat (length out) <= Z.max 0 top_n)%Z.
Proof.
  revert recs. induction indices as [|idx rest IH]; intros recs Hrun Hseed Hlen; simpl in Hrun.
  - inversion Hrun; subst. auto.
  - destruct (movies_df nb !! idx) as [m|]; [|discriminate].
    destruct (bool_decide (title m ∉ input_movies)) eqn:Eb; simpl in Hrun.
    + destruct (Z.of_nat (length recs) <? top_n)%Z eqn:El.
      * apply bool_decide_eq_true in Eb. apply Z.ltb_lt in El.
        apply (IH _ Hrun).
        -- apply Forall_app. split; [exact Hseed | repeat constructor; exact Eb].
        -- rewrite length_app. simpl. lia.
      * apply (IH _ Hrun); assumption.
    + apply (IH _ Hrun); assumption.
Qed.

(** [selected_rows] and [filter_loop] take the same branches. *)
Lemma selected_rows_titles input_movies top_n indices rows recs :
  titles_of nb rows recs ->
  match selected_rows nb input_movies top_n indices rows,
        filter_loop nb input_movies top_n indices recs with
  | Returned rows', Returned recs' => titles_of nb rows' recs'
  | Raised e, Raised e' => e = e'
  | _, _ => False
  end.
Proof.
  revert rows recs. induction indices as [|idx rest IH]; intros rows recs Ht; simpl.
  - exact Ht.
  - destruct (movies_df nb !! idx) as [m|] eqn:Em; [|reflexivity].
    rewrite (Forall2_length _ _ _ Ht).
    destruct (bool_decide (title m ∉ input_movies) && (Z.of_nat (length recs) <? top_n)%Z).
    + apply IH. apply Forall2_app; [exact Ht|]. repeat constructor. eauto.
    + apply IH, Ht.
Qed.

Lemma selected_rows_sublist input_movies top_n indices rows out :
  selected_rows nb input_movies top_n indices rows = Returned out ->
  exists picked, out = rows ++ picked /\ picked `sublist_of` indices.
Proof.
  revert rows. induction indices as [|idx rest IH]; intros rows Hrun; simpl in Hrun.
  - inversion Hrun; subst. exists []. rewrite app_nil_r. split; [reflexivity | constructor].
  - destruct (movies_df nb !! idx) as [m|]; [|discriminate].
    destruct (bool_decide (title m ∉ input_movies) && (Z.of_nat (length rows) <? top_n)%Z).
    + destruct (IH _ Hrun) as (picked & -> & Hsub). exists (idx :: picked).
      rewrite <- app_assoc. split; [reflexivity | constructor; exact Hsub].
    + destruct (IH _ Hrun) as (picked & -> & Hsub). exists picked.
      split; [reflexivity | constructor; exact Hsub].
Qed.

Lemma np_add_length a b r :
  np_add a b = Returned r -> length r <= Nat.max (length a) (length b).
Proof.
  unfold np_add. destruct (length a =? length b) eqn:E1.
  - apply Nat.eqb_eq in E1. intros H; inversion H; subst.
    rewrite length_zip_with. lia.
  - destruct (length a =? 1) eqn:E2.
    + intros H; inversion H; subst. rewrite length_map. lia.
    + destruct (length b =? 1) eqn:E3; [|discriminate].
      apply Nat.eqb_eq in E3. apply Nat.eqb_neq in E1, E2.
      intros H; inversion H; subst. rewrite length_map. lia.
Qed.

(** The score array never has more entries than there are rated movies. *)
Lemma hybrid_scores_length idxs scores :
  hybrid_scores nb idxs = Returned scores -> length scores <= num_movies nb.
Proof.
  unfold hybrid_scores. destruct (X_users nb !! 0); [|discriminate].
  destruct idxs as [|i idxs]; [discriminate|].
  intros H. apply np_add_length in H.
  unfold np_scale, np_arange in H.
  rewrite !length_map, length_take, length_seq in H. lia.
Qed.

(** The four ways through the [try] block. *)
Lemma ranker_body_cases input_movies top_n :
  (exists movie, find_input_indices nb input_movies [] = inr movie
     /\ ranker_body nb input_movies top_n = ([Warning_not_found movie], Returned []))
  \/ (exists idxs e, find_input_indices nb input_movies [] = inl idxs
     /\ hybrid_scores nb idxs = Raised e
     /\ ranker_body nb input_movies top_n = ([], Raised e))
  \/ (exists idxs scores e, find_input_indices nb input_movies [] = inl idxs
     /\ hybrid_scores nb idxs = Returned scores
     /\ filter_loop nb input_movies top_n (top_indices nb scores) [] = Raised e
     /\ ranker_body nb input_movies top_n = ([], Raised e))
  \/ (exists idxs scores recs, find_input_indices nb input_movies [] = inl idxs
     /\ hybrid_scores nb idxs = Returned scores
     /\ filter_loop nb input_movies top_n (top_indices nb scores) [] = Returned recs
     /\ ranker_body nb input_movies top_n = ([], Returned recs)).
Proof.
  unfold ranker_body.
  destruct (find_input_indices nb input_movies []) as [idxs|movie].
  - destruct (hybrid_scores nb idxs) as [scores|e] eqn:Eh.
    + destruct (filter_loop nb input_movies top_n (top_indices nb scores) []) as [recs|e] eqn:Ef.
      * right; right; right. exists idxs, scores, recs. auto.
      * right; right; left. exists idxs, scores, e. auto.
    + right; left. exists idxs, e. auto.
  - left. exists movie. auto.
Qed.

(** The ranker always returns, and what it returns is [[]] or the list
    built by the second loop. *)
Lemma ranker_returns input_movies top_n :
  exists out recs,
    get_hybrid_recommendations nb input_movies top_n = (out, Returned recs)
    /\ (recs = []
        \/ exists idxs scores,
             find_input_indices nb input_movies [] = inl idxs
             /\ hybrid_scores nb idxs = Returned scores
             /\ filter_loop nb input_movies top_n (top_indices nb scores) [] = Returned recs).
Proof.
  unfold get_hybrid_recommendations.
  destruct (ranker_body_cases input_movies top_n)
    as [(movie & _ & ->)|[(idxs & e & _ & _ & ->)|[(idxs & scores & e & _ & _ & _ & ->)
       |(idxs & scores & recs & Hf & Hh & Hl & ->)]]]; simpl; eauto 10.
Qed.

Lemma filter_loop_rows input_movies top_n indices recs :
  filter_loop nb input_movies top_n indices [] = Returned recs ->
  exists rows,
    selected_rows nb input_movies top_n indices [] = Returned rows
    /\ titles_of nb rows recs
    /\ rows `sublist_of` indices.
Proof.
  intros Hrun.
  pose proof (selected_rows_titles input_movies top_n indices [] []) as H.
  rewrite Hrun in H.
  destruct (selected_rows nb input_movies top_n indices []) as [rows|e] eqn:Er.
  - exists rows. split; [reflexivity|]. split; [apply H; constructor|].
    destruct (selected_rows_sublist _ _ _ _ _ Er) as (picked & -> & Hsub). exact Hsub.
  - exfalso. apply H. constructor.
Qed.

Lemma titles_of_in_table rows recs :
  titles_of nb rows recs -> Forall (in_table nb) recs.
Proof.
  induction 1 as [|i t rows recs (m & Hm & Ht) _ IH]; constructor; [|exact IH].
  unfold in_table. subst t. apply list_elem_of_lookup_2 with i.
  rewrite list_lookup_fmap, Hm. reflexivity.
Qed.

End Ranker.

(** ** The evaluator *)

Section Evaluator.

Context (nb : notebook).

Lemma seed_genres_loop_absent test_movies acc :
  (exists t, t ∈ test_movies /\ ~ in_table nb t) ->
  seed_genres_loop nb test_movies acc = Raised IndexError.
Proof.
  revert acc. induction test_movies as [|movie rest IH]; intros acc (t & Hin & Habs).
  - apply elem_of_nil in Hin. contradiction.
  - simpl. destruct (genres_values nb movie) as [|genre tl] eqn:E; [reflexivity|].
    apply IH. apply elem_of_cons in Hin. destruct Hin as [->|Hin]; [|eauto].
    apply genres_values_nil in Habs. congruence.
Qed.

Lemma seed_genres_loop_present test_movies acc :
  Forall (in_table nb) test_movies ->
  seed_genres_loop nb test_movies acc = Returned (acc ∪ seed_genre_union nb test_movies).
Proof.
  revert acc. induction test_movies as [|movie rest IH]; intros acc HF.
  - simpl. f_equal. unfold seed_genre_union. simpl.
    rewrite (right_id_L ∅ (∪)). reflexivity.
  - apply Forall_cons in HF. destruct HF as [Hm Hrest]. simpl.
    destruct (genres_values nb movie) as [|genre tl] eqn:E.
    + apply genres_values_nil in E. contradiction.
    + rewrite (IH _ Hrest). f_equal. unfold seed_genre_union, genre_tags. simpl.
      rewrite E, (assoc_L (∪)). reflexivity.
Qed.

Lemma existsb_member (tags : gset string) (l : list string) :
  existsb (fun genre => bool_decide (genre ∈ tags)) l
  = bool_decide (Exists (fun g => g ∈ tags) l).
Proof.
  induction l as [|g l IH]; cbn [existsb].
  - symmetry. apply bool_decide_eq_false. intros H. inversion H.
  - rewrite IH. destruct (decide (g ∈ tags)) as [Hg|Hg].
    + rewrite (bool_decide_eq_true_2 _ Hg). simpl. symmetry.
      apply bool_decide_eq_true. constructor. exact Hg.
    + rewrite (bool_decide_eq_false_2 _ Hg). simpl. apply bool_decide_ext.
      rewrite Exists_cons. tauto.
Qed.

Lemma count_genre_matches_present (tags : gset string) recs :
  Forall (in_table nb) recs ->
  count_genre_matches nb tags recs
  = Returned (length (filter (shares_genre nb tags) recs)).
Proof.
  induction recs as [|rec rest IH]; intros HF; [reflexivity|].
  apply Forall_cons in HF. destruct HF as [Hm Hrest]. simpl.
  destruct (genres_values nb rec) as [|g tl] eqn:E.
  - apply genres_values_nil in E. contradiction.
  - rewrite (IH Hrest), existsb_member.
    assert (Hiff : shares_genre nb tags rec
                   <-> Exists (fun g0 => g0 ∈ tags) (split_pipe g)).
    { unfold shares_genre, genre_tags. rewrite E. reflexivity. }
    destruct (decide (shares_genre nb tags rec)) as [H|H].
    + rewrite (filter_cons_True _ _ _ H).
      rewrite (bool_decide_eq_true_2 _ (proj1 Hiff H)). reflexivity.
    + rewrite (filter_cons_False _ _ _ H).
      rewrite bool_decide_eq_false_2; [reflexivity|].
      intros H'. apply H, Hiff, H'.
Qed.

Lemma match_rate_percentage k (recs : list string) :
  recs <> [] -> k <= length recs ->
  (0 <= match_rate k recs <= 100)%Q
  /\ (match_rate k recs
      == 100 * (inject_Z (Z.of_nat k) / inject_Z (Z.of_nat (length recs))))%Q.
Proof.
  intros Hne Hk. destruct recs as [|r recs]; [congruence|].
  unfold match_rate. remember (length (r :: recs)) as n eqn:En.
  assert (Hpos : 0 < n) by (subst n; simpl; lia).
  assert (Hn : (0 < inject_Z (Z.of_nat n))%Q).
  { unfold Qlt, inject_Z. simpl. lia. }
  assert (Hfrac0 : (0 <= inject_Z (Z.of_nat k) / inject_Z (Z.of_nat n))%Q).
  { apply Qle_shift_div_l; [exact Hn|]. unfold Qle, inject_Z. simpl. lia. }
  assert (Hfrac1 : (inject_Z (Z.of_nat k) / inject_Z (Z.of_nat n) <= 1)%Q).
  { apply Qle_shift_div_r; [exact Hn|]. unfold Qle, inject_Z. simpl. lia. }
  split; [split|].
  - apply Qmult_le_0_compat; [exact Hfrac0 | discriminate].
  - apply (Qle_trans _ (1 * 100)%Q); [|discriminate].
    apply Qmult_le_compat_r; [exact Hfrac1 | discriminate].
  - apply Qmult_comm.
Qed.

(** The evaluator on seeds and recommendations that are all in the table. *)
Lemma evaluate_against_present test_movies recs :
  Forall (in_table nb) test_movies ->
  Forall (in_table nb) recs ->
  exists m,
    evaluate_against nb test_movies recs = Returned m
    /\ recommendations m = recs
    /\ total_recommendations m = length recs
    /\ (recs = [] -> genre_match_rate m = 0%Q)
    /\ (recs <> [] ->
        (0 <= genre_match_rate m <= 100)%Q
        /\ (genre_match_rate m
            == 100 * (inject_Z (Z.of_nat (length (filter (shares_genre nb (seed_genre_union nb test_movies)) recs)))
                      / inject_Z (Z.of_nat (length recs))))%Q).
Proof.
  intros Hseeds Hrecs. unfold evaluate_against.
  rewrite (seed_genres_loop_present _ _ Hseeds).
  rewrite (count_genre_matches_present _ _ Hrecs).
  eexists. split; [reflexivity|]. simpl. split; [reflexivity|].
  split; [reflexivity|]. split.
  - intros ->. reflexivity.
  - intros Hne. rewrite (left_id_L ∅ (∪)).
    apply match_rate_percentage; [exact Hne | apply length_filter].
Qed.

End Evaluator.

(** ** The score array *)

Section Scores.

Context (nb : notebook).

Lemma np_mean_axis0_length n rows : length (np_mean_axis0 n rows) = n.
Proof. unfold np_mean_axis0. rewrite length_map, length_seq. reflexivity. Qed.

Lemma np_mean_axis0_lookup idxs j :
  j < length (movies_df nb) ->
  np_mean_axis0 (length (movies_df nb)) (map (content_row nb) idxs) !! j
  = Some (content_score nb idxs j).
Proof.
  intros Hj. unfold np_mean_axis0.
  rewrite list_lookup_fmap, lookup_seq_lt by exact Hj. simpl.
  unfold content_score. rewrite map_map, length_map. do 3 f_equal.
  apply map_ext. intros i. unfold content_row.
  rewrite nth_lookup, list_lookup_fmap, lookup_seq_lt by exact Hj. reflexivity.
Qed.

(** Entry [j] of the score array pairs the content score of table row
    [j] with the prediction for model index [j]. *)
Lemma hybrid_scores_entry idxs scores u j :
  X_users nb !! 0 = Some u ->
  hybrid_scores nb idxs = Returned scores ->
  num_movies nb <= length (movies_df nb) ->
  j < num_movies nb ->
  scores !! j
  = Some ((1 # 2) * content_score nb idxs j
          + (1 # 2) * cf_model_predict nb u (Z.of_nat j))%Q.
Proof.
  intros Hu Hrun Hsize Hj. unfold hybrid_scores in Hrun. rewrite Hu in Hrun.
  destruct idxs as [|i0 idxs]; [discriminate|].
  remember (i0 :: idxs) as seeds eqn:Es. clear Es.
  unfold np_add, np_scale, np_arange in Hrun.
  rewrite !length_map, length_take, np_mean_axis0_length, length_seq in Hrun.
  replace (num_movies nb `min` length (movies_df nb)) with (num_movies nb) in Hrun by lia.
  rewrite Nat.eqb_refl in Hrun. inversion Hrun; subst scores. clear Hrun.
  rewrite lookup_zip_with, !list_lookup_fmap.
  rewrite lookup_take_lt by exact Hj.
  rewrite np_mean_axis0_lookup by lia.
  rewrite lookup_seq_lt by exact Hj. reflexivity.
Qed.

End Scores.

(** ** The label encoder *)

Lemma insert_unique_elem x l y : y ∈ insert_unique x l <-> y = x \/ y ∈ l.
Proof.
  induction l as [|z l IH]; simpl.
  - rewrite list_elem_of_singleton, elem_of_nil. tauto.
  - destruct (Z.ltb_spec x z) as [Hlt|Hge].
    + rewrite !elem_of_cons. tauto.
    + destruct (Z.eqb_spec x z) as [->|Hne].
      * rewrite elem_of_cons. tauto.
      * rewrite !elem_of_cons, IH. tauto.
Qed.

Lemma insert_unique_sorted x l :
  StronglySorted Z.lt l -> StronglySorted Z.lt (insert_unique x l).
Proof.
  induction l as [|z l IH]; intros Hs; simpl.
  - repeat constructor.
  - apply StronglySorted_cons in Hs. destruct Hs as [Hz Hs].
    destruct (Z.ltb_spec x z) as [Hlt|Hge].
    + apply StronglySorted_cons. split; [|apply StronglySorted_cons; auto].
      apply Forall_cons. split; [exact Hlt|].
      eapply Forall_impl; [exact Hz|]. simpl. intros y Hy. lia.
    + destruct (Z.eqb_spec x z) as [->|Hne].
      * apply StronglySorted_cons. auto.
      * apply StronglySorted_cons. split; [|apply IH, Hs].
        apply Forall_forall. intros y Hy. apply insert_unique_elem in Hy.
        destruct Hy as [->|Hy]; [lia|]. rewrite Forall_forall in Hz. apply Hz, Hy.
Qed.

(** [np.unique] returns its values in strictly increasing order. *)
Lemma np_unique_sorted l : StronglySorted Z.lt (np_unique l).
Proof.
  induction l as [|x l IH]; simpl; [constructor|]. apply insert_unique_sorted, IH.
Qed.

Lemma np_unique_elem l y : y ∈ np_unique l <-> y ∈ l.
Proof.
  induction l as [|x l IH]; simpl; [reflexivity|].
  rewrite insert_unique_elem, elem_of_cons, IH. reflexivity.
Qed.

(** The encoder sends the label at position [j] to [j]. *)
Lemma class_index_lookup classes j x :
  StronglySorted Z.lt classes -> classes !! j = Some x -> class_index x classes = j.
Proof.
  revert j. induction classes as [|y classes IH]; intros j Hs Hj; [discriminate|].
  apply StronglySorted_cons in Hs. destruct Hs as [Hy Hs].
  destruct j as [|j]; simpl in *.
  - inversion Hj; subst. rewrite Z.eqb_refl. reflexivity.
  - rewrite Forall_forall in Hy. pose proof (Hy x (list_elem_of_lookup_2 _ _ _ Hj)).
    destruct (Z.eqb_spec x y) as [->|Hne]; [lia|]. f_equal. apply IH; assumption.
Qed.

Lemma class_index_bound classes x :
  x ∈ classes -> class_index x classes < length classes.
Proof.
  induction classes as [|y classes IH]; intros Hx; simpl.
  - apply elem_of_nil in Hx. contradiction.
  - destruct (Z.eqb_spec x y) as [->|Hne]; [lia|].
    apply elem_of_cons in Hx. destruct Hx as [->|Hx]; [congruence|].
    apply IH in Hx. lia.
Qed.

Lemma sorted_lt_NoDup (l : list Z) : StronglySorted Z.lt l -> NoDup l.
Proof.
  induction l as [|x l IH]; intros Hs; [constructor|].
  apply StronglySorted_cons in Hs. destruct Hs as [Hx Hs].
  apply NoDup_cons. split; [|apply IH, Hs].
  intros Hin. rewrite Forall_forall in Hx. pose proof (Hx x Hin). lia.
Qed.

(** The encoded labels are exactly the positions of [classes_]. *)
Lemma fit_transform_elem l y :
  y ∈ fit_transform l <-> y ∈ np_arange (length (np_unique l)).
Proof.
  unfold fit_transform, np_arange. rewrite !list_elem_of_fmap. split.
  - intros (x & -> & Hx). exists (class_index x (np_unique l)).
    split; [reflexivity|]. apply elem_of_seq. split; [lia|]. simpl.
    apply class_index_bound, np_unique_elem, Hx.
  - intros (j & -> & Hj). apply elem_of_seq in Hj. simpl in Hj.
    destruct (lookup_lt_is_Some_2 (np_unique l) j) as [x Hx]; [lia|].
    exists x. split.
    + f_equal. symmetry. apply class_index_lookup; [apply np_unique_sorted | exact Hx].
    + apply np_unique_elem. eapply list_elem_of_lookup_2, Hx.
Qed.

(** [num_movies] is the number of distinct movies in the rating set. *)
Lemma num_movies_classes nb : num_movies nb = length (movie_classes nb).
Proof.
  unfold num_movies, movie_classes, X_movies.
  set (raw := map rated_movieId (ratings_df nb)).
  assert (Hp : np_unique (fit_transform raw) ≡ₚ np_arange (length (np_unique raw))).
  { apply NoDup_Permutation.
    - apply sorted_lt_NoDup, np_unique_sorted.
    - unfold np_arange. apply (NoDup_fmap_2 Z.of_nat), NoDup_seq.
    - intros y. rewrite np_unique_elem. apply fit_transform_elem. }
  rewrite Hp. unfold np_arange. rewrite length_map, length_seq. reflexivity.
Qed.

(** When table row [j] holds the movie of model index [j], the two
    halves of its score are about the same movie. *)
Lemma hybrid_scores_aligned nb idxs scores u j m :
  X_users nb !! 0 = Some u ->
  hybrid_scores nb idxs = Returned scores ->
  num_movies nb <= length (movies_df nb) ->
  j < num_movies nb ->
  movies_df nb !! j = Some m ->
  movie_classes nb !! j = Some (movieId m) ->
  scores !! j
  = Some ((1 # 2) * content_score nb idxs j
          + (1 # 2) * cf_model_predict nb u
                        (Z.of_nat (class_index (movieId m) (movie_classes nb))))%Q.
Proof.
  intros Hu Hrun Hsize Hj Hm Hc.
  assert (Hclass : class_index (movieId m) (movie_classes nb) = j).
  { apply class_index_lookup; [apply np_unique_sorted | exact Hc]. }
  rewrite Hclass. eapply hybrid_scores_entry; eassumption.
Qed.

(** ** The ranker as a whole *)

Section RankerRuns.

Context (nb : notebook).

(** A title that is not in the table: warning, empty list, no exception. *)
Lemma ranker_absent_title input_movies top_n :
  (exists t, t ∈ input_movies /\ ~ in_table nb t) ->
  exists movie,
    movie ∈ input_movies /\ ~ in_table nb movie
    /\ ranker_body nb input_movies top_n = ([Warning_not_found movie], Returned [])
    /\ get_hybrid_recommendations nb input_movies top_n
       = ([Warning_not_found movie], Returned []).
Proof.
  intros Habs.
  destruct (find_input_indices_absent nb input_movies [] Habs) as (movie & Hf & Hin & Hno).
  exists movie. split; [exact Hin|]. split; [exact Hno|].
  assert (Hb : ranker_body nb input_movies top_n = ([Warning_not_found movie], Returned [])).
  { unfold ranker_body. rewrite Hf. reflexivity. }
  split; [exact Hb|]. unfold get_hybrid_recommendations. rewrite Hb. reflexivity.
Qed.

(** The rows behind what the ranker returns. *)
Lemma ranker_selected_rows input_movies top_n :
  exists out recs rows,
    get_hybrid_recommendations nb input_movies top_n = (out, Returned recs)
    /\ titles_of nb rows recs
    /\ (rows = []
        \/ exists idxs scores,
             find_input_indices nb input_movies [] = inl idxs
             /\ hybrid_scores nb idxs = Returned scores
             /\ selected_rows nb input_movies top_n (top_indices nb scores) []
                = Returned rows
             /\ rows `sublist_of` top_indices nb scores).
Proof.
  destruct (ranker_returns nb input_movies top_n) as (out & recs & Hrun & Hrecs).
  destruct Hrecs as [->|(idxs & scores & Hf & Hh & Hloop)].
  - exists out, [], []. split; [exact Hrun|]. split; [constructor | left; reflexivity].
  - destruct (filter_loop_rows nb _ _ _ _ Hloop) as (rows & Hsel & Htitles & Hsub).
    exists out, recs, rows. split; [exact Hrun|]. split; [exact Htitles|].
    right. exists idxs, scores. auto.
Qed.

(** What the ranker returns is made of titles of the table. *)
Lemma ranker_titles_in_table input_movies top_n out recs :
  get_hybrid_recommendations nb input_movies top_n = (out, Returned recs) ->
  Forall (in_table nb) recs.
Proof.
  intros Hrun.
  destruct (ranker_selected_rows input_movies top_n)
    as (out' & recs' & rows & Hrun' & Ht & _).
  rewrite Hrun in Hrun'. inversion Hrun'; subst.
  eapply titles_of_in_table, Ht.
Qed.

Lemma X_users_first : ratings_df nb <> [] -> exists u, X_users nb !! 0 = Some u.
Proof.
  unfold X_users, fit_transform. destruct (ratings_df nb) as [|r rs]; [congruence|].
  intros _. simpl. eauto.
Qed.

Lemma filter_loop_in_range input_movies top_n indices recs :
  Forall (fun i => i < length (movies_df nb)) indices ->
  exists out, filter_loop nb input_movies top_n indices recs = Returned out.
Proof.
  revert recs. induction indices as [|idx rest IH]; intros recs HF; simpl; [eauto|].
  apply Forall_cons in HF. destruct HF as [Hidx Hrest].
  destruct (lookup_lt_is_Some_2 (movies_df nb) idx Hidx) as [m ->].
  destruct (_ && _); apply IH, Hrest.
Qed.

(** When the seed list is not empty, there are ratings, and the table
    has a row for every model index, the score array has one entry per
    rated movie. *)
Lemma hybrid_scores_returns idxs :
  idxs <> [] -> ratings_df nb <> [] ->
  num_movies nb <= length (movies_df nb) ->
  exists scores,
    hybrid_scores nb idxs = Returned scores /\ length scores = num_movies nb.
Proof.
  intros Hidxs Hr Hsize. destruct (X_users_first Hr) as [u Hu].
  unfold hybrid_scores. rewrite Hu. destruct idxs as [|i0 idxs]; [congruence|].
  unfold np_add, np_scale, np_arange.
  rewrite !length_map, length_take, np_mean_axis0_length, length_seq.
  replace (num_movies nb `min` length (movies_df nb)) with (num_movies nb) by lia.
  rewrite Nat.eqb_refl. eexists. split; [reflexivity|].
  rewrite length_zip_with, !length_map, length_take, np_mean_axis0_length, length_seq. lia.
Qed.

(** Under the same conditions, and with every seed title in the table,
    the [try] block returns without printing. *)
Lemma ranker_body_returns input_movies top_n :
  Forall (in_table nb) input_movies -> input_movies <> [] ->
  ratings_df nb <> [] ->
  num_movies nb <= length (movies_df nb) ->
  exists recs,
    ranker_body nb input_movies top_n = ([], Returned recs)
    /\ get_hybrid_recommendations nb input_movies top_n = ([], Returned recs).
Proof.
  intros Hall Hne Hr Hsize.
  destruct (find_input_indices_present nb input_movies [] Hall) as (idxs & Hf & Hlen).
  simpl in Hf.
  assert (Hidxs : idxs <> []).
  { destruct idxs; [|congruence]. destruct input_movies; [congruence|discriminate]. }
  destruct (hybrid_scores_returns idxs Hidxs Hr Hsize) as (scores & Hh & Hl).
  destruct (filter_loop_in_range input_movies top_n (top_indices nb scores) [])
    as [recs Hloop].
  { eapply Forall_impl; [apply top_indices_bound|]. simpl. intros i Hi. lia. }
  exists recs. unfold get_hybrid_recommendations, ranker_body.
  rewrite Hf, Hh, Hloop. split; reflexivity.
Qed.

End RankerRuns.

(** * Properties of the ranker and the evaluator *)

(** Closed goals on the small notebooks are settled by running their
    decision procedure. *)
Ltac by_decision :=
  match goal with
  | |- ?P => apply (bool_decide_unpack P); vm_compute; exact I
  end.

(** The three kinds of failure the [try] block can meet, each caught. *)
Example ranker_catches_IndexError :
  ranker_body toy [] 5 = ([], Raised IndexError)
  /\ get_hybrid_recommendations toy [] 5 = ([An_error_occurred IndexError], Returned []).
Proof. split; reflexivity. Qed.

Example ranker_catches_ValueError :
  ranker_body short_table ["Toy Story (1995)"] 5 = ([], Raised ValueError)
  /\ get_hybrid_recommendations short_table ["Toy Story (1995)"] 5
     = ([An_error_occurred ValueError], Returned []).
Proof. split; reflexivity. Qed.

Example ranker_catches_KeyError :
  ranker_body one_row ["Toy Story (1995)"] 5 = ([], Raised KeyError)
  /\ get_hybrid_recommendations one_row ["Toy Story (1995)"] 5
     = ([An_error_occurred KeyError], Returned []).
Proof. split; reflexivity. Qed.

Section Claims.

Context (nb : notebook).

(** C2 (amended). When every seed title is in the table, the candidates
    are ordered by hybrid score, highest first: no candidate comes
    before one with a strictly higher score.  Nothing is said of the
    order of candidates with equal scores, which [np.argsort] leaves
    open.  The rows behind the returned titles are a subsequence of the
    candidate order. *)
Theorem ranker_order_descending input_movies top_n :
  Forall (in_table nb) input_movies ->
  exists out recs rows idxs,
    get_hybrid_recommendations nb input_movies top_n = (out, Returned recs)
    /\ find_input_indices nb input_movies [] = inl idxs
    /\ titles_of nb rows recs
    /\ forall scores,
         hybrid_scores nb idxs = Returned scores ->
         top_indices nb scores ≡ₚ seq 0 (length scores)
         /\ StronglySorted (scores_at_least scores) (top_indices nb scores)
         /\ rows `sublist_of` top_indices nb scores
         /\ StronglySorted (scores_at_least scores) rows.
Proof.
  intros Hall.
  destruct (find_input_indices_present nb input_movies [] Hall) as (idxs & Hf & _).
  simpl in Hf.
  destruct (ranker_selected_rows nb input_movies top_n)
    as (out & recs & rows & Hrun & Htitles & Hrows).
  exists out, recs, rows, idxs. split; [exact Hrun|]. split; [exact Hf|].
  split; [exact Htitles|]. intros scores Hh.
  split; [apply top_indices_perm|]. split; [apply top_indices_sorted|].
  destruct Hrows as [->|(idxs' & scores' & Hf' & Hh' & _ & Hsub)].
  - split; [apply sublist_nil_l | constructor].
  - assert (idxs' = idxs) by congruence. subst idxs'.
    assert (scores' = scores) by congruence. subst scores'.
    split; [exact Hsub|].
    eapply StronglySorted_sublist; [exact Hsub | apply top_indices_sorted].
Qed.

(** C3. A seed list with a title that is not in the movie table makes
    the ranker print the warning for the first such title and return the
    empty list; the [try] block itself returns, so nothing is raised and
    nothing is caught. *)
Theorem ranker_absent_title_returns_empty input_movies top_n :
  (exists t, t ∈ input_movies /\ ~ in_table nb t) ->
  exists movie,
    movie ∈ input_movies /\ ~ in_table nb movie
    /\ ranker_body nb input_movies top_n = ([Warning_not_found movie], Returned [])
    /\ get_hybrid_recommendations nb input_movies top_n
       = ([Warning_not_found movie], Returned []).
Proof. apply ranker_absent_title. Qed.

(** C4. Whatever the seed list and the limit, the ranker returns a list
    that holds no seed title and, for a limit [0 <= top_n], at most
    [top_n] titles (for a limit below one the list is empty). *)
Theorem ranker_excludes_seeds_within_limit input_movies top_n :
  exists out recs,
    get_hybrid_recommendations nb input_movies top_n = (out, Returned recs)
    /\ (forall t, t ∈ recs -> t ∉ input_movies)
    /\ ((0 <= top_n)%Z -> (Z.of_nat (length recs) <= top_n)%Z)
    /\ ((top_n <= 0)%Z -> recs = []).
Proof.
  destruct (ranker_returns nb input_movies top_n) as (out & recs & Hrun & Hrecs).
  exists out, recs. split; [exact Hrun|].
  destruct Hrecs as [->|(idxs & scores & _ & _ & Hloop)].
  - split; [intros t Ht; apply elem_of_nil in Ht; contradiction|].
    split; [simpl; lia | reflexivity].
  - destruct (filter_loop_invariant nb _ _ _ _ _ Hloop) as [Hseed Hlen];
      [constructor | simpl; lia |].
    split; [rewrite Forall_forall in Hseed; exact Hseed|].
    split; [lia|].
    intros Hle. destruct recs as [|r recs]; [reflexivity|]. simpl in Hlen. lia.
Qed.

(** C8. The ranker always returns a list, and whenever the [try] block
    raises, the handler prints the error line after what was printed
    before and the ranker returns the empty list. *)
Theorem ranker_catches_every_failure input_movies top_n :
  (exists out recs,
     get_hybrid_recommendations nb input_movies top_n = (out, Returned recs))
  /\ (forall out e,
        ranker_body nb input_movies top_n = (out, Raised e) ->
        get_hybrid_recommendations nb input_movies top_n
        = (out ++ [An_error_occurred e], Returned [])).
Proof.
  split.
  - destruct (ranker_returns nb input_movies top_n) as (out & recs & Hrun & _). eauto.
  - intros out e Hb. unfold get_hybrid_recommendations. rewrite Hb. reflexivity.
Qed.

(** C9. Every title the ranker returns is the title of a row that the
    second loop selected, and every selected row has an index below
    [num_movies], the number of distinct movies in the rating set: no
    row at or beyond that count is selected. *)
Theorem ranker_rows_below_num_movies input_movies top_n :
  exists out recs rows,
    get_hybrid_recommendations nb input_movies top_n = (out, Returned recs)
    /\ titles_of nb rows recs
    /\ num_movies nb = length (movie_classes nb)
    /\ Forall (fun i => i < num_movies nb) rows
    /\ (rows = []
        \/ exists idxs scores,
             find_input_indices nb input_movies [] = inl idxs
             /\ hybrid_scores nb idxs = Returned scores
             /\ selected_rows nb input_movies top_n (top_indices nb scores) []
                = Returned rows).
Proof.
  destruct (ranker_selected_rows nb input_movies top_n)
    as (out & recs & rows & Hrun & Htitles & Hrows).
  exists out, recs, rows. split; [exact Hrun|]. split; [exact Htitles|].
  split; [apply num_movies_classes|].
  destruct Hrows as [->|(idxs & scores & Hf & Hh & Hsel & Hsub)].
  - split; [constructor | left; reflexivity].
  - split; [|right; exists idxs, scores; auto].
    apply Forall_forall. intros i Hi.
    pose proof (top_indices_bound nb scores) as Hb. rewrite Forall_forall in Hb.
    pose proof (hybrid_scores_length nb _ _ Hh).
    pose proof (Hb i (elem_of_sublist _ _ _ Hi Hsub)). lia.
Qed.

(** C10. A seed title that is not in the movie table makes the evaluator
    raise [IndexError] in its seed-genre loop, after the ranker it called
    has printed its warning and returned the empty list. *)
Theorem evaluator_raises_on_absent_seed test_movies top_n :
  (exists t, t ∈ test_movies /\ ~ in_table nb t) ->
  exists movie,
    get_hybrid_recommendations nb test_movies top_n
    = ([Warning_not_found movie], Returned [])
    /\ seed_genres_loop nb test_movies ∅ = Raised IndexError
    /\ evaluate_recommendations nb test_movies top_n
       = ([Warning_not_found movie], Raised IndexError).
Proof.
  intros Habs.
  destruct (ranker_absent_title nb test_movies top_n Habs)
    as (movie & _ & _ & _ & Hrun).
  pose proof (seed_genres_loop_absent nb test_movies ∅ Habs) as Hloop.
  exists movie. split; [exact Hrun|]. split; [exact Hloop|].
  unfold evaluate_recommendations, evaluate_against. rewrite Hrun. simpl.
  rewrite Hloop. reflexivity.
Qed.

End Claims.

(** ** The claims on the small notebooks *)

(** C1 (code defect). In [toy], movie 2 has no rating, so table row 2
    (movie 3) is model index 1 while model index 2 is movie 4.  The score
    of row 2 adds the content score of row 2 to the prediction for model
    index 2, that is, for movie 4; it is not the sum with the prediction
    for movie 3. *)
Theorem hybrid_score_pairs_row_with_another_movie :
  exists u scores,
    X_users toy !! 0 = Some u
    /\ find_input_indices toy ["Toy Story (1995)"] [] = inl [0]
    /\ hybrid_scores toy [0] = Returned scores
    /\ movieId <$> movies_df toy !! 2 = Some 3%Z
    /\ movie_classes toy !! 2 = Some 4%Z
    /\ class_index 3 (movie_classes toy) = 1
    /\ (score_of scores 2
        == (1 # 2) * content_score toy [0%nat] 2 + (1 # 2) * cf_model_predict toy u 2)%Q
    /\ ~ (score_of scores 2
          == (1 # 2) * content_score toy [0%nat] 2 + (1 # 2) * cf_model_predict toy u 1)%Q.
Proof.
  eexists. eexists. repeat split; try reflexivity.
  intros H. vm_compute in H. discriminate H.
Qed.

(** C2 (counterexample). In [tied], rows 1 and 2 have the same hybrid
    score and the index sort leaves equal scores in index order; the
    ranker then returns the title of row 2 before the title of row 1. *)
Lemma ranker_ties_not_in_table_order :
  exists scores rows,
    find_input_indices tied ["Toy Story (1995)"] [] = inl [0]
    /\ hybrid_scores tied [0] = Returned scores
    /\ selected_rows tied ["Toy Story (1995)"] 5 (top_indices tied scores) [] = Returned rows
    /\ get_hybrid_recommendations tied ["Toy Story (1995)"] 5
       = ([], Returned ["Grumpier Old Men (1995)"; "Jumanji (1995)"])
    /\ rows = [2; 1]
    /\ (score_of scores 2 == score_of scores 1)%Q
    /\ ~ ties_in_table_order scores rows.
Proof.
  eexists. eexists. repeat split; try reflexivity.
  intros H.
  assert (Hlt : 2 < 1).
  { apply (H 0 1 2 1); [reflexivity | reflexivity | lia | reflexivity]. }
  lia.
Qed.

Lemma ranker_order_descending_witness :
  Forall (in_table tied) ["Toy Story (1995)"]
  /\ exists out recs rows idxs,
       get_hybrid_recommendations tied ["Toy Story (1995)"] 5 = (out, Returned recs)
       /\ find_input_indices tied ["Toy Story (1995)"] [] = inl idxs
       /\ titles_of tied rows recs
       /\ forall scores,
            hybrid_scores tied idxs = Returned scores ->
            top_indices tied scores ≡ₚ seq 0 (length scores)
            /\ StronglySorted (scores_at_least scores) (top_indices tied scores)
            /\ rows `sublist_of` top_indices tied scores
            /\ StronglySorted (scores_at_least scores) rows.
Proof.
  assert (H : Forall (in_table tied) ["Toy Story (1995)"]) by by_decision.
  split; [exact H|].
  exact (ranker_order_descending tied ["Toy Story (1995)"] 5 H).
Defined.

Lemma ranker_absent_title_returns_empty_witness :
  exists movie,
    movie ∈ ["Toy Story (1995)"; "Nope"] /\ ~ in_table toy movie
    /\ ranker_body toy ["Toy Story (1995)"; "Nope"] 5
       = ([Warning_not_found movie], Returned [])
    /\ get_hybrid_recommendations toy ["Toy Story (1995)"; "Nope"] 5
       = ([Warning_not_found movie], Returned []).
Proof.
  apply (ranker_absent_title_returns_empty toy ["Toy Story (1995)"; "Nope"] 5).
  exists "Nope". split; by_decision.
Defined.

Lemma ranker_excludes_seeds_within_limit_witness :
  exists out recs,
    get_hybrid_recommendations toy ["Toy Story (1995)"] 1 = (out, Returned recs)
    /\ (forall t, t ∈ recs -> t ∉ ["Toy Story (1995)"])
    /\ (Z.of_nat (length recs) <= 1)%Z.
Proof.
  destruct (ranker_excludes_seeds_within_limit toy ["Toy Story (1995)"] 1)
    as (out & recs & Hrun & Hseed & Hlen & _).
  exists out, recs. split; [exact Hrun|]. split; [exact Hseed|].
  apply Hlen. lia.
Defined.

Lemma ranker_catches_every_failure_witness :
  ranker_body toy [] 5 = ([], Raised IndexError)
  /\ get_hybrid_recommendations toy [] 5
     = ([] ++ [An_error_occurred IndexError], Returned []).
Proof.
  assert (H : ranker_body toy [] 5 = ([], Raised IndexError)) by reflexivity.
  split; [exact H|].
  exact (proj2 (ranker_catches_every_failure toy [] 5) [] IndexError H).
Defined.

Lemma evaluator_raises_on_absent_seed_witness :
  exists movie,
    get_hybrid_recommendations toy ["Heat (1995)"; "Nope"] 5
    = ([Warning_not_found movie], Returned [])
    /\ seed_genres_loop toy ["Heat (1995)"; "Nope"] ∅ = Raised IndexError
    /\ evaluate_recommendations toy ["Heat (1995)"; "Nope"] 5
       = ([Warning_not_found movie], Raised IndexError).
Proof.
  apply (evaluator_raises_on_absent_seed toy ["Heat (1995)"; "Nope"] 5).
  exists "Nope". split; by_decision.
Defined.

(** The ranker returns a title twice when two selected rows carry it. *)
Example ranker_repeats_duplicate_title :
  get_hybrid_recommendations twins ["Toy Story (1995)"] 5
  = ([], Returned ["Emma (1996)"; "Emma (1996)"]).
Proof. reflexivity. Qed.

(** The evaluator on [toy]: both recommended movies share a genre with
    the seed, and with a seed about crime none does. *)
Example evaluator_toy_story :
  exists m,
    evaluate_recommendations toy ["Toy Story (1995)"] 5 = ([], Returned m)
    /\ recommendations m = ["Grumpier Old Men (1995)"; "Jumanji (1995)"]
    /\ (genre_match_rate m == 100)%Q.
Proof. eexists. split; [vm_compute; reflexivity|]. split; reflexivity. Qed.

Example evaluator_heat :
  exists m,
    evaluate_recommendations toy ["Heat (1995)"] 1 = ([], Returned m)
    /\ recommendations m = ["Grumpier Old Men (1995)"]
    /\ (genre_match_rate m == 0)%Q.
Proof. eexists. split; [vm_compute; reflexivity|]. split; reflexivity. Qed.

(** * Further properties *)

(** ** The label encoders *)

Lemma class_index_lookup_elem classes x :
  x ∈ classes -> classes !! class_index x classes = Some x.
Proof.
  induction classes as [|y classes IH]; intros Hx; simpl.
  - apply elem_of_nil in Hx. contradiction.
  - destruct (Z.eqb_spec x y) as [->|Hne]; [reflexivity|].
    apply elem_of_cons in Hx. destruct Hx as [->|Hx]; [congruence|].
    simpl. apply IH, Hx.
Qed.

Lemma sorted_lookup_lt (l : list Z) i j x y :
  StronglySorted Z.lt l -> l !! i = Some x -> l !! j = Some y -> i < j -> (x < y)%Z.
Proof.
  revert i j. induction l as [|z l IH]; intros i j Hs Hi Hj Hlt; [discriminate|].
  apply StronglySorted_cons in Hs. destruct Hs as [Hz Hs].
  destruct j as [|j]; [lia|]. simpl in Hj.
  destruct i as [|i]; simpl in Hi.
  - inversion Hi; subst. rewrite Forall_forall in Hz.
    apply Hz. eapply list_elem_of_lookup_2, Hj.
  - apply (IH i j); [assumption..|lia].
Qed.

Lemma fit_transform_lookup l k x :
  l !! k = Some x ->
  fit_transform l !! k = Some (Z.of_nat (class_index x (np_unique l))).
Proof.
  intros Hk. unfold fit_transform. rewrite list_lookup_fmap, Hk. reflexivity.
Qed.

Lemma fit_transform_unique_length l :
  length (np_unique (fit_transform l)) = length (np_unique l).
Proof.
  assert (Hp : np_unique (fit_transform l) ≡ₚ np_arange (length (np_unique l))).
  { apply NoDup_Permutation.
    - apply sorted_lt_NoDup, np_unique_sorted.
    - unfold np_arange. apply (NoDup_fmap_2 Z.of_nat), NoDup_seq.
    - intros y. rewrite np_unique_elem. apply fit_transform_elem. }
  rewrite Hp. unfold np_arange. rewrite length_map, length_seq. reflexivity.
Qed.

Lemma fit_transform_range l :
  Forall (fun e => (0 <= e < Z.of_nat (length (np_unique l)))%Z) (fit_transform l).
Proof.
  apply Forall_forall. intros e He. apply fit_transform_elem in He.
  unfold np_arange in He. apply list_elem_of_fmap in He.
  destruct He as (j & -> & Hj). apply elem_of_seq in Hj. lia.
Qed.

Lemma class_index_lt l x y :
  x ∈ l -> y ∈ l ->
  (class_index x (np_unique l) < class_index y (np_unique l) <-> (x < y)%Z).
Proof.
  intros Hx Hy.
  pose proof (np_unique_sorted l) as Hs.
  pose proof (class_index_lookup_elem _ _ (proj2 (np_unique_elem l x) Hx)) as Hix.
  pose proof (class_index_lookup_elem _ _ (proj2 (np_unique_elem l y) Hy)) as Hiy.
  split.
  - intros Hlt. eapply sorted_lookup_lt; eassumption.
  - intros Hlt.
    destruct (Nat.lt_trichotomy (class_index x (np_unique l)) (class_index y (np_unique l)))
      as [H|[H|H]]; [exact H| |].
    + rewrite H in Hix. rewrite Hix in Hiy. inversion Hiy. lia.
    + pose proof (sorted_lookup_lt _ _ _ _ _ Hs Hiy Hix H). lia.
Qed.

Section Encoders.

Context (nb : notebook).

(** X1. Every encoded user index is a valid index of a table with
    [num_users] rows and every encoded movie index of a table with
    [num_movies] rows, and these two counts are the numbers of distinct
    raw user and movie identifiers of the rating rows. *)
Theorem encoded_ids_within_counts :
  Forall (fun e => (0 <= e < Z.of_nat (num_users nb))%Z) (X_users nb)
  /\ Forall (fun e => (0 <= e < Z.of_nat (num_movies nb))%Z) (X_movies nb)
  /\ num_users nb = length (user_classes nb)
  /\ num_movies nb = length (movie_classes nb).
Proof.
  unfold num_users, num_movies, user_classes, movie_classes, X_users, X_movies.
  rewrite !fit_transform_unique_length.
  split; [apply fit_transform_range|]. split; [apply fit_transform_range|].
  split; reflexivity.
Qed.

(** X2. Decoding the encoded identifiers of a rating row through
    [classes_] gives back the raw user and movie identifiers of that
    row. *)
Theorem encoders_round_trip k r :
  ratings_df nb !! k = Some r ->
  exists eu em,
    X_users nb !! k = Some eu
    /\ X_movies nb !! k = Some em
    /\ user_classes nb !! Z.to_nat eu = Some (userId r)
    /\ movie_classes nb !! Z.to_nat em = Some (rated_movieId r).
Proof.
  intros Hk.
  assert (Hu : map userId (ratings_df nb) !! k = Some (userId r))
    by (rewrite list_lookup_fmap, Hk; reflexivity).
  assert (Hm : map rated_movieId (ratings_df nb) !! k = Some (rated_movieId r))
    by (rewrite list_lookup_fmap, Hk; reflexivity).
  eexists. eexists. unfold X_users, X_movies.
  split; [apply fit_transform_lookup, Hu|].
  split; [apply fit_transform_lookup, Hm|].
  rewrite !Nat2Z.id. unfold user_classes, movie_classes.
  split; apply class_index_lookup_elem, np_unique_elem;
    eapply list_elem_of_lookup_2; eassumption.
Qed.

(** X3. The movie encoding keeps the order of the raw identifiers: of
    two rating rows, one has the smaller encoded movie index exactly
    when it has the smaller raw movie identifier.  In particular two
    rows have the same encoded index only for the same movie. *)
Theorem movie_encoding_keeps_order k1 k2 r1 r2 e1 e2 :
  ratings_df nb !! k1 = Some r1 ->
  ratings_df nb !! k2 = Some r2 ->
  X_movies nb !! k1 = Some e1 ->
  X_movies nb !! k2 = Some e2 ->
  ((e1 < e2)%Z <-> (rated_movieId r1 < rated_movieId r2)%Z)
  /\ (e1 = e2 <-> rated_movieId r1 = rated_movieId r2).
Proof.
  intros H1 H2 He1 He2.
  set (raw := map rated_movieId (ratings_df nb)).
  assert (Hr1 : raw !! k1 = Some (rated_movieId r1))
    by (unfold raw; rewrite list_lookup_fmap, H1; reflexivity).
  assert (Hr2 : raw !! k2 = Some (rated_movieId r2))
    by (unfold raw; rewrite list_lookup_fmap, H2; reflexivity).
  unfold X_movies in He1, He2. fold raw in He1, He2.
  rewrite (fit_transform_lookup _ _ _ Hr1) in He1.
  rewrite (fit_transform_lookup _ _ _ Hr2) in He2.
  inversion He1; subst e1. inversion He2; subst e2. clear He1 He2.
  pose proof (list_elem_of_lookup_2 _ _ _ Hr1) as Hin1.
  pose proof (list_elem_of_lookup_2 _ _ _ Hr2) as Hin2.
  pose proof (class_index_lt raw _ _ Hin1 Hin2) as H12.
  pose proof (class_index_lt raw _ _ Hin2 Hin1) as H21.
  split; [rewrite <- H12; lia|].
  split; [|intros ->; reflexivity].
  intros Heq. apply Nat2Z.inj in Heq. lia.
Qed.

End Encoders.

Lemma encoders_round_trip_witness :
  exists eu em,
    X_users toy !! 1 = Some eu
    /\ X_movies toy !! 1 = Some em
    /\ user_classes toy !! Z.to_nat eu = Some 1%Z
    /\ movie_classes toy !! Z.to_nat em = Some 3%Z.
Proof.
  exact (encoders_round_trip toy 1 (Rating 1 3 4 964981247) eq_refl).
Defined.

Lemma movie_encoding_keeps_order_witness :
  ((1 < 2)%Z <-> (3 < 4)%Z) /\ (1%Z = 2%Z <-> 3%Z = 4%Z).
Proof.
  exact (movie_encoding_keeps_order toy 1 2
           (Rating 1 3 4 964981247) (Rating 2 4 5 964982224) 1 2
           eq_refl eq_refl eq_refl eq_refl).
Defined.

(** ** The second loop in closed form *)

Section SecondLoop.

Context (nb : notebook).

(** The second loop raises exactly when a candidate index is not a row
    of the table; otherwise it appends, up to the limit, the titles of
    the candidates that are not seeds, in candidate order. *)
Lemma filter_loop_closed seeds top_n indices recs :
  match titles_at nb indices with
  | Some ts =>
      filter_loop nb seeds top_n indices recs
      = Returned (recs ++ take (Z.to_nat top_n - length recs)
                               (filter (fun t => t ∉ seeds) ts))
  | None => filter_loop nb seeds top_n indices recs = Raised KeyError
  end.
Proof.
  revert recs. induction indices as [|idx rest IH]; intros recs;
    cbn [titles_at filter_loop].
  - rewrite filter_nil, take_nil, app_nil_r. reflexivity.
  - destruct (movies_df nb !! idx) as [m|]; [|reflexivity].
    pose proof (IH recs) as IH0. pose proof (IH (recs ++ [title m])) as IH1.
    destruct (titles_at nb rest) as [ts|].
    + rewrite filter_cons.
      destruct (decide (title m ∉ seeds)) as [Hm|Hm].
      * rewrite (bool_decide_eq_true_2 _ Hm). simpl.
        destruct (Z.ltb_spec (Z.of_nat (length recs)) top_n) as [Hlt|Hge].
        -- rewrite IH1, length_app. simpl.
           replace (Z.to_nat top_n - length recs)
             with (S (Z.to_nat top_n - (length recs + 1))) by lia.
           simpl. rewrite <- app_assoc. reflexivity.
        -- rewrite IH0. replace (Z.to_nat top_n - length recs) with 0 by lia.
           reflexivity.
      * rewrite (bool_decide_eq_false_2 _ Hm). simpl. exact IH0.
    + destruct (_ && _); assumption.
Qed.

Lemma titles_at_in_range indices :
  Forall (fun i => i < length (movies_df nb)) indices ->
  exists ts, titles_at nb indices = Some ts.
Proof.
  induction indices as [|idx rest IH]; intros HF; simpl; [eauto|].
  apply Forall_cons in HF. destruct HF as [Hidx Hrest].
  destruct (lookup_lt_is_Some_2 (movies_df nb) idx Hidx) as [m ->].
  destruct (IH Hrest) as [ts ->]. eauto.
Qed.

Lemma titles_at_out_of_range indices i :
  i ∈ indices -> length (movies_df nb) <= i -> titles_at nb indices = None.
Proof.
  induction indices as [|idx rest IH]; intros Hin Hi; simpl.
  - apply elem_of_nil in Hin. contradiction.
  - apply elem_of_cons in Hin. destruct Hin as [->|Hin].
    + rewrite (lookup_ge_None_2 _ _ Hi). reflexivity.
    + rewrite (IH Hin Hi). destruct (movies_df nb !! idx); reflexivity.
Qed.

Lemma titles_at_lookup indices ts k i :
  titles_at nb indices = Some ts -> indices !! k = Some i ->
  exists m, movies_df nb !! i = Some m /\ ts !! k = Some (title m).
Proof.
  revert ts k. induction indices as [|idx rest IH]; intros ts k Ht Hk; [discriminate|].
  simpl in Ht. destruct (movies_df nb !! idx) as [m|] eqn:Em; [|discriminate].
  destruct (titles_at nb rest) as [ts'|]; [|discriminate].
  inversion Ht; subst ts. destruct k as [|k]; simpl in *.
  - inversion Hk; subst. eauto.
  - apply (IH ts' k eq_refl Hk).
Qed.

Lemma titles_at_length indices ts :
  titles_at nb indices = Some ts -> length ts = length indices.
Proof.
  revert ts. induction indices as [|idx rest IH]; intros ts Ht; simpl in Ht.
  - inversion Ht. reflexivity.
  - destruct (movies_df nb !! idx); [|discriminate].
    destruct (titles_at nb rest) as [ts'|]; [|discriminate].
    inversion Ht; subst. simpl. f_equal. apply IH. reflexivity.
Qed.

(** The titles of a rearrangement of the first [n] rows are a
    rearrangement of the first [n] titles. *)
Lemma titles_at_permutation indices ts n :
  titles_at nb indices = Some ts ->
  indices ≡ₚ seq 0 n ->
  ts ≡ₚ map title (take n (movies_df nb)).
Proof.
  intros Ht Hp.
  set (f := fun i => match movies_df nb !! i with Some m => title m | None => "" end).
  assert (Hts : ts = map f indices).
  { apply list_eq. intros k. rewrite list_lookup_fmap.
    destruct (indices !! k) as [i|] eqn:Ek; simpl.
    - destruct (titles_at_lookup _ _ _ _ Ht Ek) as (m & Hm & Hk).
      rewrite Hk. unfold f. rewrite Hm. reflexivity.
    - apply lookup_ge_None_2. rewrite (titles_at_length _ _ Ht).
      apply lookup_ge_None_1, Ek. }
  assert (Hrange : forall i, i < n -> i < length (movies_df nb)).
  { intros i Hi.
    assert (Hin : i ∈ indices) by (rewrite Hp; apply elem_of_seq; lia).
    apply list_elem_of_lookup_1 in Hin. destruct Hin as [k Hk].
    destruct (titles_at_lookup _ _ _ _ Ht Hk) as (m & Hm & _).
    eapply lookup_lt_Some, Hm. }
  rewrite Hts, Hp. apply reflexive_eq.
  apply list_eq. intros i. rewrite !list_lookup_fmap.
  destruct (decide (i < n)) as [Hi|Hi].
  - rewrite lookup_seq_lt, lookup_take_lt by exact Hi. simpl.
    destruct (lookup_lt_is_Some_2 (movies_df nb) i (Hrange i Hi)) as [m Hm].
    unfold f. rewrite Hm. reflexivity.
  - rewrite lookup_seq_ge, lookup_take_ge by lia. reflexivity.
Qed.

End SecondLoop.

(** ** The ranker's output in closed form *)

Section RankerOutput.

Context (nb : notebook).

Lemma num_movies_positive : 0 < num_movies nb -> ratings_df nb <> [].
Proof.
  unfold num_movies, X_movies. intros Hpos Hnil. rewrite Hnil in Hpos.
  simpl in Hpos. lia.
Qed.

Lemma ranker_closed_form seeds top_n :
  Forall (in_table nb) seeds -> seeds <> [] ->
  ratings_df nb <> [] ->
  num_movies nb <= length (movies_df nb) ->
  exists idxs scores ts,
    find_input_indices nb seeds [] = inl idxs
    /\ hybrid_scores nb idxs = Returned scores
    /\ titles_at nb (top_indices nb scores) = Some ts
    /\ ts ≡ₚ map title (take (num_movies nb) (movies_df nb))
    /\ ranker_body nb seeds top_n
       = ([], Returned (take (Z.to_nat top_n) (filter (fun t => t ∉ seeds) ts)))
    /\ get_hybrid_recommendations nb seeds top_n
       = ([], Returned (take (Z.to_nat top_n) (filter (fun t => t ∉ seeds) ts))).
Proof.
  intros Hall Hne Hr Hsize.
  destruct (find_input_indices_present nb seeds [] Hall) as (idxs & Hf & Hlen).
  simpl in Hf.
  assert (Hidxs : idxs <> []).
  { destruct idxs; [|congruence]. destruct seeds; [congruence|discriminate]. }
  destruct (hybrid_scores_returns nb idxs Hidxs Hr Hsize) as (scores & Hh & Hl).
  destruct (titles_at_in_range nb (top_indices nb scores)) as [ts Hts].
  { eapply Forall_impl; [apply top_indices_bound|]. simpl. intros i Hi. lia. }
  exists idxs, scores, ts. split; [exact Hf|]. split; [exact Hh|]. split; [exact Hts|].
  split.
  { apply (titles_at_permutation nb _ _ _ Hts). rewrite <- Hl. apply top_indices_perm. }
  pose proof (filter_loop_closed nb seeds top_n (top_indices nb scores) []) as Hloop.
  rewrite Hts in Hloop. simpl in Hloop. rewrite Nat.sub_0_r in Hloop.
  unfold get_hybrid_recommendations, ranker_body. rewrite Hf, Hh, Hloop.
  split; reflexivity.
Qed.

(** X4. With a non-empty seed list of titles of the table, at least one
    rating and a table with a row for every rated movie, the ranker
    raises nothing, prints nothing and returns the first [top_n] titles
    that are not seed titles, taken in candidate order over the first
    [num_movies] rows of the table. *)
Theorem ranker_first_top_n_titles seeds top_n :
  Forall (in_table nb) seeds -> seeds <> [] ->
  ratings_df nb <> [] ->
  num_movies nb <= length (movies_df nb) ->
  exists idxs scores ts,
    find_input_indices nb seeds [] = inl idxs
    /\ hybrid_scores nb idxs = Returned scores
    /\ titles_at nb (top_indices nb scores) = Some ts
    /\ ts ≡ₚ map title (take (num_movies nb) (movies_df nb))
    /\ ranker_body nb seeds top_n
       = ([], Returned (take (Z.to_nat top_n) (filter (fun t => t ∉ seeds) ts)))
    /\ get_hybrid_recommendations nb seeds top_n
       = ([], Returned (take (Z.to_nat top_n) (filter (fun t => t ∉ seeds) ts))).
Proof. apply ranker_closed_form. Qed.

(** X5. Under the same conditions, when at least [top_n] of the first
    [num_movies] rows carry a title that is not a seed title, the ranker
    returns exactly [top_n] titles. *)
Theorem ranker_returns_exactly_top_n seeds top_n :
  Forall (in_table nb) seeds -> seeds <> [] ->
  ratings_df nb <> [] ->
  num_movies nb <= length (movies_df nb) ->
  (0 <= top_n)%Z ->
  (top_n <= Z.of_nat (length (filter (fun t => t ∉ seeds)
                                     (map title (take (num_movies nb) (movies_df nb))))))%Z ->
  exists recs,
    get_hybrid_recommendations nb seeds top_n = ([], Returned recs)
    /\ Z.of_nat (length recs) = top_n.
Proof.
  intros Hall Hne Hr Hsize Hpos Hcount.
  destruct (ranker_closed_form seeds top_n Hall Hne Hr Hsize)
    as (idxs & scores & ts & _ & _ & _ & Hp & _ & Hrun).
  eexists. split; [exact Hrun|].
  rewrite length_take, Hp. lia.
Qed.

Lemma titles_of_distinct rows recs n :
  NoDup rows -> Forall (fun i => i < n) rows -> titles_of nb rows recs ->
  NoDup (map title (take n (movies_df nb))) -> NoDup recs.
Proof.
  intros Hnd Hlt Ht Htitles. revert Hnd Hlt.
  induction Ht as [|i t rows recs (m & Hm & Htm) Ht IH]; intros Hnd Hlt; [constructor|].
  apply NoDup_cons in Hnd. destruct Hnd as [Hi Hnd].
  apply Forall_cons in Hlt. destruct Hlt as [Hin Hlt].
  apply NoDup_cons. split; [|apply IH; assumption].
  intros Hdup. apply list_elem_of_lookup_1 in Hdup. destruct Hdup as [k Hk].
  destruct (Forall2_lookup_r _ _ _ _ _ Ht Hk) as (j & Hj & m' & Hm' & Htm').
  assert (Hjn : j < n).
  { rewrite Forall_forall in Hlt. apply Hlt. eapply list_elem_of_lookup_2, Hj. }
  assert (Hti : map title (take n (movies_df nb)) !! i = Some t).
  { rewrite list_lookup_fmap, lookup_take_lt, Hm by exact Hin. simpl. congruence. }
  assert (Htj : map title (take n (movies_df nb)) !! j = Some t).
  { rewrite list_lookup_fmap, lookup_take_lt, Hm' by exact Hjn. simpl. congruence. }
  pose proof (NoDup_lookup _ _ _ _ Htitles Hti Htj) as Heq. subst j.
  apply Hi. eapply list_elem_of_lookup_2, Hj.
Qed.

(** X6. When the first [num_movies] rows of the table carry pairwise
    distinct titles, the ranker never returns a title twice. *)
Theorem ranker_titles_distinct seeds top_n :
  NoDup (map title (take (num_movies nb) (movies_df nb))) ->
  exists out recs,
    get_hybrid_recommendations nb seeds top_n = (out, Returned recs)
    /\ NoDup recs.
Proof.
  intros Htitles.
  destruct (ranker_selected_rows nb seeds top_n)
    as (out & recs & rows & Hrun & Ht & Hrows).
  exists out, recs. split; [exact Hrun|].
  destruct Hrows as [->|(idxs & scores & _ & Hh & _ & Hsub)].
  - inversion Ht. constructor.
  - apply (titles_of_distinct rows recs (num_movies nb)); [| |exact Ht|exact Htitles].
    + eapply sublist_NoDup; [|exact Hsub].
      rewrite top_indices_perm. apply NoDup_seq.
    + apply Forall_forall. intros i Hi.
      pose proof (top_indices_bound nb scores) as Hb. rewrite Forall_forall in Hb.
      pose proof (hybrid_scores_length nb _ _ Hh).
      pose proof (Hb i (elem_of_sublist _ _ _ Hi Hsub)). lia.
Qed.

(** X7. A larger limit only extends the list: for [top_n <= top_n'] the
    ranker prints the same lines and the list for [top_n] is a prefix of
    the list for [top_n']. *)
Theorem ranker_larger_limit_extends seeds top_n top_n' :
  (top_n <= top_n')%Z ->
  exists out recs recs',
    get_hybrid_recommendations nb seeds top_n = (out, Returned recs)
    /\ get_hybrid_recommendations nb seeds top_n' = (out, Returned recs')
    /\ recs `prefix_of` recs'.
Proof.
  intros Hle. unfold get_hybrid_recommendations, ranker_body.
  destruct (find_input_indices nb seeds []) as [idxs|movie].
  - destruct (hybrid_scores nb idxs) as [scores|e].
    + pose proof (filter_loop_closed nb seeds top_n (top_indices nb scores) []) as H1.
      pose proof (filter_loop_closed nb seeds top_n' (top_indices nb scores) []) as H2.
      destruct (titles_at nb (top_indices nb scores)) as [ts|].
      * rewrite H1, H2. simpl. rewrite !Nat.sub_0_r.
        eexists. eexists. eexists. split; [reflexivity|]. split; [reflexivity|].
        set (l := filter (fun t => t ∉ seeds) ts).
        replace (take (Z.to_nat top_n) l)
          with (take (Z.to_nat top_n) (take (Z.to_nat top_n') l)).
        -- apply prefix_take.
        -- rewrite take_take. f_equal. lia.
      * rewrite H1, H2. simpl. exists [An_error_occurred KeyError], [], [].
        split; [reflexivity|]. split; [reflexivity|]. reflexivity.
    + simpl. exists [An_error_occurred e], [], [].
      split; [reflexivity|]. split; [reflexivity|]. reflexivity.
  - simpl. exists [Warning_not_found movie], [], [].
    split; [reflexivity|]. split; [reflexivity|]. reflexivity.
Qed.

(** X8. Called with no seed title, the ranker meets an [IndexError],
    prints the error line and returns the empty list. *)
Theorem ranker_empty_seed_list top_n :
  ranker_body nb [] top_n = ([], Raised IndexError)
  /\ get_hybrid_recommendations nb [] top_n
     = ([An_error_occurred IndexError], Returned []).
Proof.
  unfold get_hybrid_recommendations, ranker_body, hybrid_scores. simpl.
  destruct (X_users nb !! 0); split; reflexivity.
Qed.

(** X9. When the table has at least two rows but fewer rows than there
    are rated movies, adding the two score arrays fails: the ranker
    prints the error line for a [ValueError] and returns the empty
    list. *)
Theorem ranker_short_table_value_error seeds top_n :
  Forall (in_table nb) seeds -> seeds <> [] ->
  2 <= length (movies_df nb) ->
  length (movies_df nb) < num_movies nb ->
  get_hybrid_recommendations nb seeds top_n
  = ([An_error_occurred ValueError], Returned []).
Proof.
  intros Hall Hne Hn Hm.
  destruct (find_input_indices_present nb seeds [] Hall) as (idxs & Hf & Hlen).
  simpl in Hf.
  assert (Hidxs : idxs <> []).
  { destruct idxs; [|congruence]. destruct seeds; [congruence|discriminate]. }
  destruct (X_users_first nb) as [u Hu]; [apply num_movies_positive; lia|].
  assert (Hh : hybrid_scores nb idxs = Raised ValueError).
  { unfold hybrid_scores. rewrite Hu. destruct idxs as [|i0 idxs]; [congruence|].
    unfold np_add, np_scale, np_arange.
    rewrite !length_map, length_take, np_mean_axis0_length, length_seq.
    replace (num_movies nb `min` length (movies_df nb))
      with (length (movies_df nb)) by lia.
    destruct (Nat.eqb_spec (length (movies_df nb)) (num_movies nb)); [lia|].
    destruct (Nat.eqb_spec (length (movies_df nb)) 1); [lia|].
    destruct (Nat.eqb_spec (num_movies nb) 1); [lia|]. reflexivity. }
  unfold get_hybrid_recommendations, ranker_body. rewrite Hf, Hh. reflexivity.
Qed.

(** X10. When the table has a single row and at least two movies are
    rated, the single content score is broadcast over the predictions
    and the second loop meets a candidate index that is not a row: the
    ranker prints the error line for a [KeyError] and returns the empty
    list. *)
Theorem ranker_single_row_key_error seeds top_n :
  Forall (in_table nb) seeds -> seeds <> [] ->
  length (movies_df nb) = 1 ->
  2 <= num_movies nb ->
  get_hybrid_recommendations nb seeds top_n
  = ([An_error_occurred KeyError], Returned []).
Proof.
  intros Hall Hne Hn Hm.
  destruct (find_input_indices_present nb seeds [] Hall) as (idxs & Hf & Hlen).
  simpl in Hf.
  assert (Hidxs : idxs <> []).
  { destruct idxs; [|congruence]. destruct seeds; [congruence|discriminate]. }
  destruct (X_users_first nb) as [u Hu]; [apply num_movies_positive; lia|].
  assert (Hh : exists scores, hybrid_scores nb idxs = Returned scores
                              /\ length scores = num_movies nb).
  { unfold hybrid_scores. rewrite Hu. destruct idxs as [|i0 idxs]; [congruence|].
    unfold np_add, np_scale, np_arange.
    rewrite !length_map, length_take, np_mean_axis0_length, length_seq, Hn.
    replace (num_movies nb `min` 1) with 1 by lia.
    destruct (Nat.eqb_spec 1 (num_movies nb)); [lia|]. simpl.
    eexists. split; [reflexivity|]. rewrite !length_map, length_seq. reflexivity. }
  destruct Hh as (scores & Hh & Hl).
  pose proof (filter_loop_closed nb seeds top_n (top_indices nb scores) []) as Hloop.
  rewrite (titles_at_out_of_range nb (top_indices nb scores) 1) in Hloop.
  - unfold get_hybrid_recommendations, ranker_body. rewrite Hf, Hh, Hloop. reflexivity.
  - rewrite top_indices_perm. apply elem_of_seq. lia.
  - lia.
Qed.

End RankerOutput.

(** ** Resolving the seed titles *)

Section SeedResolution.

Context (nb : notebook).

Lemma rows_titled_first movie df i k tl :
  rows_titled movie df i = k :: tl ->
  i <= k
  /\ (exists m, df !! (k - i) = Some m /\ title m = movie)
  /\ (forall j m', j < k - i -> df !! j = Some m' -> title m' <> movie).
Proof.
  revert i. induction df as [|m df IH]; intros i H; simpl in H; [discriminate|].
  destruct (String.eqb_spec (title m) movie) as [E|E].
  - inversion H; subst k. split; [lia|]. replace (i - i) with 0 by lia.
    split; [exists m; auto|]. intros j m' Hj. lia.
  - destruct (IH _ H) as (Hle & (m0 & Hm0 & Ht0) & Hfirst).
    split; [lia|]. replace (k - i) with (S (k - S i)) by lia.
    split; [exists m0; auto|].
    intros j m' Hj Hm'. destruct j as [|j]; simpl in Hm'.
    + inversion Hm'; subst. exact E.
    + apply (Hfirst j m'); [lia | exact Hm'].
Qed.

Lemma find_input_indices_first seeds acc idxs :
  find_input_indices nb seeds acc = inl idxs ->
  exists new, idxs = acc ++ new /\ Forall2 (first_row_of nb) seeds new.
Proof.
  revert acc. induction seeds as [|movie rest IH]; intros acc H; simpl in H.
  - inversion H; subst. exists []. rewrite app_nil_r. split; [reflexivity|constructor].
  - destruct (title_index nb movie) as [|idx0 tl] eqn:E; [discriminate|].
    destruct (IH _ H) as (new & -> & HF). exists (idx0 :: new).
    rewrite <- app_assoc. split; [reflexivity|]. constructor; [|exact HF].
    destruct (rows_titled_first _ _ _ _ _ E) as (_ & Hrow & Hfirst).
    rewrite Nat.sub_0_r in Hrow, Hfirst. split; assumption.
Qed.

Lemma find_input_indices_first_absent pre t post acc :
  Forall (in_table nb) pre -> ~ in_table nb t ->
  find_input_indices nb (pre ++ t :: post) acc = inr t.
Proof.
  revert acc. induction pre as [|movie pre IH]; intros acc Hpre Ht; simpl.
  - apply title_index_nil in Ht. rewrite Ht. reflexivity.
  - apply Forall_cons in Hpre. destruct Hpre as [Hm Hpre].
    destruct (title_index nb movie) as [|idx0 tl] eqn:E.
    + apply title_index_nil in E. contradiction.
    + apply IH; assumption.
Qed.

(** X11. When the first loop succeeds, every seed title has been
    resolved to the first row of the table that carries it, in seed
    order. *)
Theorem seeds_resolve_to_first_rows seeds idxs :
  find_input_indices nb seeds [] = inl idxs ->
  Forall2 (first_row_of nb) seeds idxs.
Proof.
  intros H. destruct (find_input_indices_first seeds [] idxs H) as (new & -> & HF).
  exact HF.
Qed.

(** X12. The warning names the first seed title that is not in the
    table; the seed titles after it are not looked at, whether they are
    in the table or not. *)
Theorem ranker_warns_about_first_absent_title pre t post top_n :
  Forall (in_table nb) pre -> ~ in_table nb t ->
  get_hybrid_recommendations nb (pre ++ t :: post) top_n
  = ([Warning_not_found t], Returned []).
Proof.
  intros Hpre Ht. unfold get_hybrid_recommendations, ranker_body.
  rewrite (find_input_indices_first_absent pre t post [] Hpre Ht). reflexivity.
Qed.

(** X13. The evaluator returns exactly when every seed title is in the
    table; otherwise it raises [IndexError].  It raises nothing else. *)
Theorem evaluator_returns_iff_seeds_in_table seeds top_n :
  (Forall (in_table nb) seeds
   /\ exists out m, evaluate_recommendations nb seeds top_n = (out, Returned m))
  \/ (~ Forall (in_table nb) seeds
      /\ exists out, evaluate_recommendations nb seeds top_n = (out, Raised IndexError)).
Proof.
  destruct (decide (Forall (in_table nb) seeds)) as [Hall|Hnot].
  - left. split; [exact Hall|].
    destruct (ranker_returns nb seeds top_n) as (out & recs & Hrun & _).
    pose proof (ranker_titles_in_table nb _ _ _ _ Hrun) as Hrecs.
    destruct (evaluate_against_present nb _ _ Hall Hrecs) as (m & Hev & _).
    exists out, m. unfold evaluate_recommendations. rewrite Hrun. simpl.
    rewrite Hev. simpl. rewrite app_nil_r. reflexivity.
  - right. split; [exact Hnot|].
    apply not_Forall_Exists in Hnot; [|apply _].
    apply Exists_exists in Hnot. destruct Hnot as (t & Hin & Ht).
    assert (Habs : exists t, t ∈ seeds /\ ~ in_table nb t) by eauto.
    destruct (ranker_absent_title nb seeds top_n Habs) as (movie & _ & _ & _ & Hrun).
    pose proof (seed_genres_loop_absent nb seeds ∅ Habs) as Hloop.
    exists [Warning_not_found movie].
    unfold evaluate_recommendations, evaluate_against. rewrite Hrun. simpl.
    rewrite Hloop. reflexivity.
Qed.

(** X14. When the table has a row for every rated movie, entry [j] of
    the score array is half the mean of the seed rows' similarity to
    row [j] plus half the prediction, for the user of the first rating
    row, at model index [j]. *)
Theorem hybrid_score_formula idxs scores u j :
  X_users nb !! 0 = Some u ->
  hybrid_scores nb idxs = Returned scores ->
  num_movies nb <= length (movies_df nb) ->
  j < num_movies nb ->
  scores !! j
  = Some ((1 # 2) * content_score nb idxs j
          + (1 # 2) * cf_model_predict nb u (Z.of_nat j))%Q.
Proof. apply hybrid_scores_entry. Qed.

End SeedResolution.

(** ** Splitting the genres *)

Lemma split_pipe_nonempty s : split_pipe s <> [].
Proof.
  destruct s as [|c s]; simpl; [discriminate|].
  destruct (Ascii.eqb c "|"); [discriminate|].
  destruct (split_pipe s); discriminate.
Qed.

Lemma join_pipe_cons w ws :
  ws <> [] -> join_pipe (w :: ws) = (w ++ "|" ++ join_pipe ws)%string.
Proof. destruct ws; [congruence|reflexivity]. Qed.

(** X15. The tags that [split] makes of a genres string hold no ['|'],
    there is one more tag than there are ['|'] in the string, and joining
    the tags with ['|'] gives the string back. *)
Theorem split_pipe_round_trip s :
  join_pipe (split_pipe s) = s
  /\ Forall pipe_free (split_pipe s)
  /\ length (split_pipe s) = S (count_pipes s).
Proof.
  induction s as [|c s (Hjoin & Hfree & Hlen)]; simpl.
  - split; [reflexivity|]. split; [repeat constructor | reflexivity].
  - destruct (Ascii.eqb_spec c "|"%char) as [->|Hc].
    + split; [|split].
      * rewrite join_pipe_cons by apply split_pipe_nonempty. rewrite Hjoin. reflexivity.
      * constructor; [reflexivity | exact Hfree].
      * simpl. rewrite Hlen. reflexivity.
    + pose proof (split_pipe_nonempty s) as Hne.
      destruct (split_pipe s) as [|w ws]; [congruence|].
      apply Forall_cons in Hfree. destruct Hfree as [Hw Hws].
      assert (Hcount : count_pipes (String c w) = 0).
      { simpl. destruct (Ascii.eqb_spec c "|"%char); [congruence|]. exact Hw. }
      split; [|split].
      * rewrite <- Hjoin. destruct ws; reflexivity.
      * constructor; assumption.
      * simpl in *. exact Hlen.
Qed.

(** ** The pivoted rating table *)

Lemma np_arange_sorted n : StronglySorted Z.lt (np_arange n).
Proof.
  unfold np_arange. generalize 0. induction n as [|n IH]; intros k; simpl.
  - constructor.
  - apply StronglySorted_cons. split; [|apply IH].
    apply Forall_forall. intros y Hy. apply list_elem_of_fmap in Hy.
    destruct Hy as (j & -> & Hj). apply elem_of_seq in Hj. lia.
Qed.

(** The labels that occur after encoding are [0 .. n-1], in order. *)
Lemma np_unique_fit_transform l :
  np_unique (fit_transform l) = np_arange (length (np_unique l)).
Proof.
  apply (StronglySorted_unique_strong Z.lt).
  - intros x1 x2 _ _ H1 H2. lia.
  - apply np_unique_sorted.
  - apply np_arange_sorted.
  - apply NoDup_Permutation.
    + apply sorted_lt_NoDup, np_unique_sorted.
    + apply sorted_lt_NoDup, np_arange_sorted.
    + intros y. rewrite np_unique_elem. apply fit_transform_elem.
Qed.

Lemma class_index_inj l x y :
  x ∈ l -> y ∈ l ->
  class_index x (np_unique l) = class_index y (np_unique l) -> x = y.
Proof.
  intros Hx Hy Heq.
  pose proof (class_index_lookup_elem _ _ (proj2 (np_unique_elem l x) Hx)) as Hix.
  pose proof (class_index_lookup_elem _ _ (proj2 (np_unique_elem l y) Hy)) as Hiy.
  rewrite Heq in Hix. congruence.
Qed.

Section Pivot.

Context (nb : notebook).

Lemma pivot_keys_map :
  pivot_keys nb
  = map (fun r => (Z.of_nat (class_index (userId r) (user_classes nb)),
                   Z.of_nat (class_index (rated_movieId r) (movie_classes nb))))
        (ratings_df nb).
Proof.
  unfold pivot_keys, X_users, X_movies, fit_transform, user_classes, movie_classes.
  generalize (np_unique (map userId (ratings_df nb))).
  generalize (np_unique (map rated_movieId (ratings_df nb))).
  intros cm cu. induction (ratings_df nb) as [|r l IH]; simpl; [reflexivity|].
  f_equal. exact IH.
Qed.

Lemma pivot_keys_length : length (pivot_keys nb) = length (ratings_df nb).
Proof. rewrite pivot_keys_map, length_map. reflexivity. Qed.

(** Two rating rows have the same pair of labels exactly when they have
    the same pair of raw identifiers. *)
Lemma pivot_keys_NoDup :
  NoDup (pivot_keys nb)
  <-> NoDup (map (fun r => (userId r, rated_movieId r)) (ratings_df nb)).
Proof.
  rewrite pivot_keys_map.
  set (enc := fun p : Z * Z =>
                (Z.of_nat (class_index (fst p) (user_classes nb)),
                 Z.of_nat (class_index (snd p) (movie_classes nb)))).
  set (raw := map (fun r => (userId r, rated_movieId r)) (ratings_df nb)).
  assert (Hmap : map (fun r => (Z.of_nat (class_index (userId r) (user_classes nb)),
                                Z.of_nat (class_index (rated_movieId r) (movie_classes nb))))
                     (ratings_df nb)
                 = map enc raw).
  { unfold raw. rewrite map_map. reflexivity. }
  rewrite Hmap. split.
  - apply (NoDup_fmap_1 enc).
  - apply (NoDup_fmap_2_strong enc).
    intros [ux mx] [uy my] Hx Hy Heq. unfold enc in Heq. simpl in Heq.
    inversion Heq as [[Hu Hm]]. apply Nat2Z.inj in Hu, Hm.
    unfold raw in Hx, Hy. apply list_elem_of_fmap in Hx, Hy.
    destruct Hx as (rx & Erx & Hrx). destruct Hy as (ry & Ery & Hry).
    inversion Erx; subst ux mx. inversion Ery; subst uy my.
    f_equal.
    + apply (class_index_inj (map userId (ratings_df nb)));
        [apply list_elem_of_fmap; eauto.. | exact Hu].
    + apply (class_index_inj (map rated_movieId (ratings_df nb)));
        [apply list_elem_of_fmap; eauto.. | exact Hm].
Qed.

Lemma encoded_range_users k e :
  X_users nb !! k = Some e -> (0 <= e)%Z /\ Z.to_nat e < num_users nb.
Proof.
  intros Hk. unfold num_users, X_users in *. rewrite fit_transform_unique_length.
  pose proof (fit_transform_range (map userId (ratings_df nb))) as HF.
  rewrite Forall_forall in HF. pose proof (HF e (list_elem_of_lookup_2 _ _ _ Hk)). lia.
Qed.

Lemma encoded_range_movies k e :
  X_movies nb !! k = Some e -> (0 <= e)%Z /\ Z.to_nat e < num_movies nb.
Proof.
  intros Hk. unfold num_movies, X_movies in *. rewrite fit_transform_unique_length.
  pose proof (fit_transform_range (map rated_movieId (ratings_df nb))) as HF.
  rewrite Forall_forall in HF. pose proof (HF e (list_elem_of_lookup_2 _ _ _ Hk)). lia.
Qed.

Lemma pivot_cell_rating k u m r :
  NoDup (pivot_keys nb) ->
  pivot_keys nb !! k = Some (u, m) ->
  ratings_df nb !! k = Some r ->
  pivot_cell nb u m = rating r.
Proof.
  intros Hnd Hkey Hr. unfold pivot_cell.
  set (L := zip (pivot_keys nb) (map rating (ratings_df nb))).
  assert (HL : L !! k = Some ((u, m), rating r)).
  { unfold L. apply lookup_zip_with_Some. exists (u, m), (rating r).
    split; [reflexivity|]. split; [exact Hkey|].
    rewrite list_lookup_fmap, Hr. reflexivity. }
  assert (Hin : ((u, m), rating r) ∈ filter (fun kr => fst kr = (u, m)) L).
  { apply list_elem_of_filter. split; [reflexivity|].
    eapply list_elem_of_lookup_2, HL. }
  destruct (filter (fun kr => fst kr = (u, m)) L) as [|kr tl] eqn:Ef.
  - apply elem_of_nil in Hin. contradiction.
  - assert (Hkr : kr ∈ filter (fun kr => fst kr = (u, m)) L)
      by (rewrite Ef; apply list_elem_of_here).
    apply list_elem_of_filter in Hkr. destruct Hkr as [Hfst Hkr].
    apply list_elem_of_lookup_1 in Hkr. destruct Hkr as [k' Hk'].
    unfold L in Hk'. apply lookup_zip_with_Some in Hk'.
    destruct Hk' as (key' & q & -> & Hkey' & Hq). simpl in Hfst. subst key'.
    pose proof (NoDup_lookup _ _ _ _ Hnd Hkey Hkey') as Hkk. subst k'.
    rewrite list_lookup_fmap, Hr in Hq. inversion Hq. reflexivity.
Qed.

Lemma pivot_cell_missing u m :
  (u, m) ∉ pivot_keys nb -> pivot_cell nb u m = 0%Q.
Proof.
  intros Hno. unfold pivot_cell.
  destruct (filter _ _) as [|kr tl] eqn:Ef; [reflexivity|].
  exfalso. apply Hno.
  assert (Hkr : kr ∈ filter (fun kr => fst kr = (u, m))
                       (zip (pivot_keys nb) (map rating (ratings_df nb))))
    by (rewrite Ef; apply list_elem_of_here).
  apply list_elem_of_filter in Hkr. destruct Hkr as [Hfst Hkr].
  destruct kr as [key q]. simpl in Hfst. subst key.
  eapply elem_of_zip_l, Hkr.
Qed.

Lemma user_movie_matrix_cell M i j :
  user_movie_matrix nb = Returned M ->
  i < num_users nb -> j < num_movies nb ->
  M !! i ≫= (fun row => row !! j) = Some (pivot_cell nb (Z.of_nat i) (Z.of_nat j)).
Proof.
  unfold user_movie_matrix. destruct (bool_decide (NoDup (pivot_keys nb))); [|discriminate].
  intros HM Hi Hj. inversion HM; subst M. clear HM.
  unfold X_users, X_movies. rewrite !np_unique_fit_transform.
  unfold num_users, num_movies, X_users, X_movies in Hi, Hj.
  rewrite fit_transform_unique_length in Hi, Hj.
  unfold np_arange. rewrite !list_lookup_fmap, lookup_seq_lt by exact Hi. simpl.
  rewrite !list_lookup_fmap, lookup_seq_lt by exact Hj. reflexivity.
Qed.

(** X16. Building the user-by-movie table fails with [ValueError]
    exactly when two rating rows have the same user and the same movie;
    otherwise the table has [num_users] rows of [num_movies] cells. *)
Theorem pivot_fails_exactly_on_repeated_pair :
  (NoDup (map (fun r => (userId r, rated_movieId r)) (ratings_df nb))
   /\ exists M,
        user_movie_matrix nb = Returned M
        /\ length M = num_users nb
        /\ Forall (fun row => length row = num_movies nb) M)
  \/ (~ NoDup (map (fun r => (userId r, rated_movieId r)) (ratings_df nb))
      /\ user_movie_matrix nb = Raised ValueError).
Proof.
  unfold user_movie_matrix.
  destruct (decide (NoDup (pivot_keys nb))) as [Hnd|Hnd].
  - left. split; [apply pivot_keys_NoDup, Hnd|].
    rewrite (bool_decide_eq_true_2 _ Hnd). eexists. split; [reflexivity|].
    split; [rewrite length_map; reflexivity|].
    apply Forall_forall. intros row Hrow. apply list_elem_of_fmap in Hrow.
    destruct Hrow as (u & -> & _). rewrite length_map. reflexivity.
  - right. split; [intros H; apply Hnd, pivot_keys_NoDup, H|].
    rewrite (bool_decide_eq_false_2 _ Hnd). reflexivity.
Qed.

(** X17. In the table, the cell at the encoded user and movie of a
    rating row holds the rating of that row. *)
Theorem pivot_holds_every_rating M k r :
  user_movie_matrix nb = Returned M ->
  ratings_df nb !! k = Some r ->
  exists eu em,
    X_users nb !! k = Some eu
    /\ X_movies nb !! k = Some em
    /\ M !! Z.to_nat eu ≫= (fun row => row !! Z.to_nat em) = Some (rating r).
Proof.
  intros HM Hr.
  assert (Hnd : NoDup (pivot_keys nb)).
  { unfold user_movie_matrix in HM.
    destruct (decide (NoDup (pivot_keys nb))) as [H|H]; [exact H|].
    rewrite (bool_decide_eq_false_2 _ H) in HM. discriminate. }
  destruct (lookup_lt_is_Some_2 (pivot_keys nb) k) as [[eu em] Hkey].
  { rewrite pivot_keys_length. eapply lookup_lt_Some, Hr. }
  pose proof Hkey as Hkey'. unfold pivot_keys in Hkey'.
  apply lookup_zip_with_Some in Hkey'.
  destruct Hkey' as (eu' & em' & Heq & Hu & Hm). inversion Heq; subst eu' em'.
  exists eu, em. split; [exact Hu|]. split; [exact Hm|].
  pose proof (encoded_range_users k eu Hu) as [Hu0 Hu1].
  pose proof (encoded_range_movies k em Hm) as [Hm0 Hm1].
  rewrite (user_movie_matrix_cell M _ _ HM) by lia.
  rewrite !Z2Nat.id by lia. f_equal.
  eapply pivot_cell_rating; eassumption.
Qed.

(** X18. A cell whose pair of labels belongs to no rating row holds 0. *)
Theorem pivot_fills_missing_with_zero M i j :
  user_movie_matrix nb = Returned M ->
  i < num_users nb -> j < num_movies nb ->
  (Z.of_nat i, Z.of_nat j) ∉ pivot_keys nb ->
  M !! i ≫= (fun row => row !! j) = Some 0%Q.
Proof.
  intros HM Hi Hj Hno.
  rewrite (user_movie_matrix_cell M _ _ HM Hi Hj). f_equal.
  apply pivot_cell_missing, Hno.
Qed.

End Pivot.

(** ** The further properties on the small notebooks *)

Lemma ranker_first_top_n_titles_witness :
  exists idxs scores ts,
    find_input_indices toy ["Toy Story (1995)"] [] = inl idxs
    /\ hybrid_scores toy idxs = Returned scores
    /\ titles_at toy (top_indices toy scores) = Some ts
    /\ ts ≡ₚ map title (take (num_movies toy) (movies_df toy))
    /\ ranker_body toy ["Toy Story (1995)"] 5
       = ([], Returned (take (Z.to_nat 5)
                             (filter (fun t => t ∉ ["Toy Story (1995)"]) ts)))
    /\ get_hybrid_recommendations toy ["Toy Story (1995)"] 5
       = ([], Returned (take (Z.to_nat 5)
                             (filter (fun t => t ∉ ["Toy Story (1995)"]) ts))).
Proof.
  apply (ranker_first_top_n_titles toy ["Toy Story (1995)"] 5).
  - by_decision.
  - discriminate.
  - discriminate.
  - vm_compute. lia.
Defined.

Lemma ranker_returns_exactly_top_n_witness :
  exists recs,
    get_hybrid_recommendations toy ["Toy Story (1995)"] 2 = ([], Returned recs)
    /\ Z.of_nat (length recs) = 2%Z.
Proof.
  apply (ranker_returns_exactly_top_n toy ["Toy Story (1995)"] 2).
  - by_decision.
  - discriminate.
  - discriminate.
  - vm_compute. lia.
  - lia.
  - vm_compute. discriminate.
Defined.

Lemma ranker_titles_distinct_witness :
  exists out recs,
    get_hybrid_recommendations toy ["Toy Story (1995)"] 5 = (out, Returned recs)
    /\ NoDup recs.
Proof.
  apply (ranker_titles_distinct toy ["Toy Story (1995)"] 5). by_decision.
Defined.

Lemma ranker_larger_limit_extends_witness :
  exists out recs recs',
    get_hybrid_recommendations toy ["Toy Story (1995)"] 1 = (out, Returned recs)
    /\ get_hybrid_recommendations toy ["Toy Story (1995)"] 5 = (out, Returned recs')
    /\ recs `prefix_of` recs'.
Proof.
  apply (ranker_larger_limit_extends toy ["Toy Story (1995)"] 1 5). lia.
Defined.

Lemma ranker_short_table_value_error_witness :
  get_hybrid_recommendations short_table ["Toy Story (1995)"] 5
  = ([An_error_occurred ValueError], Returned []).
Proof.
  apply (ranker_short_table_value_error short_table ["Toy Story (1995)"] 5).
  - by_decision.
  - discriminate.
  - vm_compute. lia.
  - vm_compute. lia.
Defined.

Lemma ranker_single_row_key_error_witness :
  get_hybrid_recommendations one_row ["Toy Story (1995)"] 5
  = ([An_error_occurred KeyError], Returned []).
Proof.
  apply (ranker_single_row_key_error one_row ["Toy Story (1995)"] 5).
  - by_decision.
  - discriminate.
  - reflexivity.
  - vm_compute. lia.
Defined.

Lemma seeds_resolve_to_first_rows_witness :
  Forall2 (first_row_of twins) ["Emma (1996)"; "Toy Story (1995)"] [1; 0].
Proof.
  exact (seeds_resolve_to_first_rows twins ["Emma (1996)"; "Toy Story (1995)"] [1; 0]
           eq_refl).
Defined.

Lemma ranker_warns_about_first_absent_title_witness :
  get_hybrid_recommendations toy (["Heat (1995)"] ++ "Nope" :: ["Nowhere"]) 5
  = ([Warning_not_found "Nope"], Returned []).
Proof.
  apply (ranker_warns_about_first_absent_title toy ["Heat (1995)"] "Nope" ["Nowhere"] 5);
    by_decision.
Defined.

Lemma hybrid_score_formula_witness :
  exists scores,
    hybrid_scores toy [0] = Returned scores
    /\ scores !! 1
       = Some ((1 # 2) * content_score toy [0%nat] 1
               + (1 # 2) * cf_model_predict toy 0 1)%Q.
Proof.
  eexists. split; [reflexivity|].
  apply (hybrid_score_formula toy [0] _ 0%Z 1).
  - reflexivity.
  - reflexivity.
  - vm_compute. lia.
  - vm_compute. lia.
Defined.

Lemma pivot_holds_every_rating_witness :
  exists eu em,
    X_users toy !! 2 = Some eu
    /\ X_movies toy !! 2 = Some em
    /\ [[4; 4; 0]; [0; 0; 5]]%Q !! Z.to_nat eu ≫= (fun row => row !! Z.to_nat em)
       = Some 5%Q.
Proof.
  exact (pivot_holds_every_rating toy [[4; 4; 0]; [0; 0; 5]]%Q 2
           (Rating 2 4 5 964982224) eq_refl eq_refl).
Defined.

Lemma pivot_fills_missing_with_zero_witness :
  [[4; 4; 0]; [0; 0; 5]]%Q !! 1 ≫= (fun row => row !! 0) = Some 0%Q.
Proof.
  apply (pivot_fills_missing_with_zero toy [[4; 4; 0]; [0; 0; 5]]%Q 1 0).
  - reflexivity.
  - vm_compute. lia.
  - vm_compute. lia.
  - by_decision.
Defined.

(** A user who rated one movie twice: the pivot fails. *)
Example pivot_repeated_rating : user_movie_matrix repeated = Raised ValueError.
Proof. reflexivity. Qed.

(** * The evaluator's rate and the recommended movies *)


Section RateAndMovies.

Context (nb : notebook).






End RateAndMovies.



(** With the other tie order the candidates of [tied] with equal scores
    come out in table order: both orders are outcomes of the ranker. *)
Example ranker_ties_in_table_order_with_other_sort :
  get_hybrid_recommendations tied_reversed ["Toy Story (1995)"] 5
  = ([], Returned ["Jumanji (1995)"; "Grumpier Old Men (1995)"]).
Proof. reflexivity. Qed.
